(** * AudioPlayer: the playback-status projection, the control dispatch and
      the time formatter of [home/components/AudioPlayer.tsx]

    The component is embedded shallowly.  A JavaScript [number] is an IEEE-754
    binary64 value ([spec_float] with [prec = 53], [emax = 1024]); the React
    state hooks, the [Audio.Sound] objects created by the effect and the
    calls made on them are threaded through a small state monad. *)

From Stdlib Require Import ZArith QArith Qround Qpower String Ascii List Bool.
From Stdlib Require Import Lia Lqa.
From Stdlib Require Import Floats.SpecFloat.
Import ListNotations.

Local Open Scope Z_scope.

(* ================================================================== *)
(** * JavaScript numbers *)

Definition prec : Z := 53.
Definition emax : Z := 1024.

Definition number : Type := spec_float.

(** An integer literal. *)
Definition num_of_Z (z : Z) : number := binary_normalize prec emax z 0 false.

Definition num_0 : number := S754_zero false.
Definition num_1 : number := Eval vm_compute in num_of_Z 1.
Definition num_2 : number := Eval vm_compute in num_of_Z 2.
Definition num_60 : number := Eval vm_compute in num_of_Z 60.
Definition num_150 : number := Eval vm_compute in num_of_Z 150.
Definition num_1000 : number := Eval vm_compute in num_of_Z 1000.
(** [1e21], from which on [Number::toString] writes an exponent. *)
Definition num_1e21 : number := Eval vm_compute in num_of_Z (10 ^ 21).
(** The literal [0.5]. *)
Definition num_0_5 : number := Eval vm_compute in SFdiv prec emax num_1 num_2.

(** [x < y], [x > y], [x >= y] and [x / y] on numbers; every comparison with
    [NaN] is false. *)
Definition num_lt (x y : number) : bool := SFltb x y.
Definition num_gt (x y : number) : bool := SFltb y x.
Definition num_ge (x y : number) : bool := SFleb y x.
Definition num_div (x y : number) : number := SFdiv prec emax x y.

(* ================================================================== *)
(** * Data model *)

(** [Error]: only its [message] is read by the component. *)
Record Error : Type := { message : string }.

(** [type ErrorState = Error | null]. *)
Definition ErrorState : Type := option Error.

(** An [Audio.Sound] object, identified by the order of its creation. *)
Definition Sound : Type := nat.

(** The fields of the loaded variant of [PlaybackState]. *)
Record LoadedPlayback : Type := {
  sound : Sound;
  positionMillis : number;
  durationMillis : number;
  isPlaying : bool;
  isLooping : bool;
  isMuted : bool;
  rate : number;
  shouldCorrectPitch : bool
}.

(** [type PlaybackState = { isLoaded: false } | { isLoaded: true; ... }]. *)
Inductive PlaybackState : Type :=
| Unloaded
| Loaded (p : LoadedPlayback).

Definition isLoaded (playback : PlaybackState) : bool :=
  match playback with
  | Unloaded => false
  | Loaded _ => true
  end.

Definition initialErrorState : ErrorState := None.
Definition initialPlaybackState : PlaybackState := Unloaded.

(** The status record delivered by the media runtime to the subscription
    callback. *)
Inductive PlaybackStatus : Type :=
| StatusNotLoaded (error : ErrorState)
| StatusLoaded (positionMillis durationMillis : number)
               (isPlaying isLooping isMuted : bool)
               (rate : number) (shouldCorrectPitch : bool).

Inductive PitchCorrectionQuality : Type := Low | Medium | High.

(** The methods of [Audio.Sound] that the component calls.  The argument of
    [setOnPlaybackStatusUpdate] records whether a callback ([true]) or [null]
    ([false]) was passed. *)
Inductive SoundCall : Type :=
| setOnPlaybackStatusUpdate (callback : bool)
| loadAsync (uri : string) (progressUpdateIntervalMillis : number)
| unloadAsync
| pauseAsync
| playAsync
| playFromPositionAsync (positionMillis : number)
| setIsLoopingAsync (isLooping : bool)
| setRateAsync (rate : number) (shouldCorrectPitch : bool)
               (quality : PitchCorrectionQuality)
| setIsMutedAsync (isMuted : bool).

(** [interface Props]; [style] is passed through to the outer [View] and is
    not modelled. *)
Record Props : Type := {
  isAudioEnabled : bool;
  source_uri : string
}.

(* ================================================================== *)
(** * The state threaded through the component *)

(** The two [useState] cells, the calls made so far on [Audio.Sound]
    objects (oldest first) and the number of objects created. *)
Record World : Type := {
  error : ErrorState;
  playback : PlaybackState;
  calls : list (Sound * SoundCall);
  created : nat
}.

Definition M (A : Type) : Type := World -> A * World.

Definition ret {A} (a : A) : M A := fun w => (a, w).
Definition bind {A B} (m : M A) (k : A -> M B) : M B :=
  fun w => let (a, w') := m w in k a w'.

Notation "x <- m ;; k" := (bind m (fun x => k))
  (at level 61, m at next level, right associativity).
Notation "m ;; k" := (bind m (fun _ => k))
  (at level 61, right associativity).

Definition setError (e : ErrorState) : M unit :=
  fun w => (tt, {| error := e; playback := playback w;
                   calls := calls w; created := created w |}).

Definition setPlayback (p : PlaybackState) : M unit :=
  fun w => (tt, {| error := error w; playback := p;
                   calls := calls w; created := created w |}).

(** [new Audio.Sound()]. *)
Definition new_Sound : M Sound :=
  fun w => (created w, {| error := error w; playback := playback w;
                          calls := calls w; created := S (created w) |}).

(** A method call [s.c(...)]; the returned promise is not awaited. *)
Definition call (s : Sound) (c : SoundCall) : M unit :=
  fun w => (tt, {| error := error w; playback := playback w;
                   calls := calls w ++ [(s, c)]; created := created w |}).

Definition exec {A} (m : M A) (w : World) : World := snd (m w).

(* ================================================================== *)
(** * PlaybackStatusProjector *)

Definition handlePlaybackStatusUpdate (sound : Sound) (status : PlaybackStatus)
  : M unit :=
  match status with
  | StatusNotLoaded err =>
      setPlayback Unloaded ;;
      setError err
  | StatusLoaded pos dur playing looping muted r pitch =>
      setPlayback (Loaded {| sound := sound;
                             positionMillis := pos;
                             durationMillis := dur;
                             isPlaying := playing;
                             isLooping := looping;
                             isMuted := muted;
                             rate := r;
                             shouldCorrectPitch := pitch |}) ;;
      setError None
  end.

(** The body of the [useEffect]; the returned [Sound] is the one captured by
    the cleanup closure. *)
Definition effect (props : Props) : M Sound :=
  sound <- new_Sound ;;
  call sound (setOnPlaybackStatusUpdate true) ;;
  call sound (loadAsync (source_uri props) num_150) ;;
  ret sound.

(** The closure returned by the effect. *)
Definition cleanup (sound : Sound) : M unit :=
  setPlayback Unloaded ;;
  call sound (setOnPlaybackStatusUpdate false) ;;
  call sound unloadAsync.

(* ================================================================== *)
(** * ControlDispatcher: the [onPress] closures *)

Definition onPress_PlayPause (playback : PlaybackState) : M unit :=
  match playback with
  | Loaded p =>
      if isPlaying p then call (sound p) pauseAsync
      else if num_lt (positionMillis p) (durationMillis p)
           then call (sound p) (playFromPositionAsync num_0)
           else call (sound p) playAsync
  | Unloaded => ret tt
  end.

Definition onPress_Repeat (playback : PlaybackState) : M unit :=
  match playback with
  | Loaded p => call (sound p) (setIsLoopingAsync (negb (isLooping p)))
  | Unloaded => ret tt
  end.

Definition onPress_Slower (playback : PlaybackState) : M unit :=
  match playback with
  | Loaded p =>
      let newRate := if num_lt (rate p) num_1 then num_1 else num_0_5 in
      call (sound p) (setRateAsync newRate (shouldCorrectPitch p) High)
  | Unloaded => ret tt
  end.

Definition onPress_Faster (playback : PlaybackState) : M unit :=
  match playback with
  | Loaded p =>
      let newRate := if num_gt (rate p) num_1 then num_1 else num_2 in
      call (sound p) (setRateAsync newRate (shouldCorrectPitch p) High)
  | Unloaded => ret tt
  end.

Definition onPress_CorrectPitch (playback : PlaybackState) : M unit :=
  match playback with
  | Loaded p =>
      call (sound p) (setRateAsync (rate p) (negb (shouldCorrectPitch p)) High)
  | Unloaded => ret tt
  end.

Definition onPress_Mute (playback : PlaybackState) : M unit :=
  match playback with
  | Loaded p => call (sound p) (setIsMutedAsync (negb (isMuted p)))
  | Unloaded => ret tt
  end.

(* ================================================================== *)
(** * PresentationFormatter: the runtime functions used by [_formatTime] *)

(** The canonical binary64 representation of [p * 2^g], for a value that is
    representable; a value that is not is left as it is given. *)
Definition normalize (s : bool) (p : positive) (g : Z) : number :=
  let ce := Z.max (Zpos (digits2_pos p) + g - prec) (emin prec emax) in
  if ce <=? g then S754_finite s (Z.to_pos (Zpos p * 2 ^ (g - ce))) ce
  else if Zpos p mod 2 ^ (ce - g) =? 0
       then S754_finite s (Z.to_pos (Zpos p / 2 ^ (ce - g))) ce
       else S754_finite s p g.

(** [n % d]: the remainder of the truncating division, with the sign of the
    dividend; it is computed exactly. *)
Definition num_rem (n d : number) : number :=
  match n, d with
  | S754_nan, _ | _, S754_nan => S754_nan
  | S754_infinity _, _ => S754_nan
  | _, S754_zero _ => S754_nan
  | S754_zero _, _ => n
  | S754_finite _ _ _, S754_infinity _ => n
  | S754_finite s mn en, S754_finite _ md ed =>
      let g := Z.min en ed in
      match (Zpos mn * 2 ^ (en - g)) mod (Zpos md * 2 ^ (ed - g)) with
      | Zpos r => normalize s r g
      | _ => S754_zero s
      end
  end.

(** [Math.floor]. *)
Definition Math_floor (x : number) : number :=
  match x with
  | S754_finite s m e =>
      if 0 <=? e then x
      else
        let q := Zpos m / 2 ^ (- e) in
        let r := Zpos m mod 2 ^ (- e) in
        match (if s && negb (r =? 0) then q + 1 else q) with
        | Zpos n => normalize s n 0
        | _ => S754_zero s
        end
  | _ => x
  end.

(** ** Decimal digits *)

Definition digit (n : Z) : ascii := ascii_of_nat (48 + Z.to_nat n).

Fixpoint digits_fuel (fuel : nat) (n : Z) : string :=
  match fuel with
  | O => EmptyString
  | S fuel' =>
      if n <? 10 then String (digit n) EmptyString
      else (digits_fuel fuel' (n / 10)
            ++ String (digit (n mod 10)) EmptyString)%string
  end.

(** The decimal representation of a natural number, without leading zeros. *)
Definition digits (n : Z) : string := digits_fuel (S (Z.to_nat (Z.log2 n))) n.

Definition ndigits (n : Z) : Z := Z.of_nat (String.length (digits n)).

Fixpoint zeros (n : nat) : string :=
  match n with
  | O => EmptyString
  | S n' => String "0"%char (zeros n')
  end.

(** ** [Number::toString], radix 10 *)

Open Scope Q_scope.

Definition Qlt_bool (x y : Q) : bool :=
  match x ?= y with Lt => true | _ => false end.

(** The magnitude [m * 2^e]. *)
Definition magnitude (m : positive) (e : Z) : Q := inject_Z (Zpos m) * 2 ^ e.

(** The exponent of the binary64 number of magnitude [m * 2^e]. *)
Definition canonical_exponent (m : positive) (e : Z) : Z :=
  Z.max (Zpos (digits2_pos m) + e - prec) (emin prec emax).

Definition is_power_of_2 (m : positive) : bool :=
  (Zpos m =? 2 ^ (Zpos (digits2_pos m) - 1))%Z.

(** The reals that round to [m * 2^e] lie between the midpoints to its two
    neighbours; the midpoints themselves round to it when its significand is
    even.  Below a power of two the neighbour is half as far. *)
Definition rounds_to (m : positive) (e : Z) (v : Q) : bool :=
  let x := magnitude m e in
  let ce := canonical_exponent m e in
  let below :=
    if is_power_of_2 m && (emin prec emax <? ce)%Z then 2 ^ (ce - 2)
    else 2 ^ (ce - 1) in
  let above := 2 ^ (ce - 1) in
  if Z.even (Z.shiftl (Zpos m) (e - ce))
  then Qle_bool (x - below) v && Qle_bool v (x + above)
  else Qlt_bool (x - below) v && Qlt_bool v (x + above).

(** The integer [n] with [10^(n-1) <= x < 10^n], for [x > 0]. *)
Definition decimal_exponent (x : Q) : Z :=
  if Qle_bool 1 x then ndigits (Qfloor x)
  else (1 - ndigits ((Zpos (Qden x) - 1) / Qnum x))%Z.

(** The decimals of [k] digits next to [x], as [(s, n)] standing for
    [s * 10^(n-k)], when one of them rounds to [x]: the closer one, and the
    even one of two equally close. *)
Definition candidate (m : positive) (e : Z) (n : Z) (k : Z) : option (Z * Z) :=
  let x := magnitude m e in
  let scale := 10 ^ (n - k) in
  let s := Qfloor (x / scale) in
  let v1 := inject_Z s * scale in
  let v2 := inject_Z (s + 1) * scale in
  let carry := if (s + 1 =? 10 ^ k)%Z then (10 ^ (k - 1), n + 1)%Z
               else (s + 1, n)%Z in
  match rounds_to m e v1, rounds_to m e v2 with
  | true, false => Some (s, n)
  | false, true => Some carry
  | true, true =>
      match (x - v1) ?= (v2 - x) with
      | Lt => Some (s, n)
      | Gt => Some carry
      | Eq => if Z.even s then Some (s, n) else Some carry
      end
  | false, false => None
  end.

(** The shortest decimal that rounds to [m * 2^e], as [(s, k, n)]. *)
Fixpoint shortest (fuel : nat) (m : positive) (e : Z) (n : Z) (k : Z)
  : Z * Z * Z :=
  match fuel with
  | O => (Qfloor (magnitude m e / 10 ^ (n - k)), k, n)
  | S fuel' =>
      match candidate m e n k with
      | Some (s, n') => (s, k, n')
      | None => shortest fuel' m e n (k + 1)
      end
  end.

Close Scope Q_scope.

(** The digits of [s], which has [k] of them, laid out for the exponent [n]. *)
Definition layout (s k n : Z) : string :=
  let ds := digits s in
  if (k <=? n) && (n <=? 21) then (ds ++ zeros (Z.to_nat (n - k)))%string
  else if (0 <? n) && (n <=? 21) then
    (substring 0 (Z.to_nat n) ds ++ "." ++
     substring (Z.to_nat n) (Z.to_nat (k - n)) ds)%string
  else if (-6 <? n) && (n <=? 0) then
    ("0." ++ zeros (Z.to_nat (- n)) ++ ds)%string
  else
    let sign := if n - 1 <? 0 then "-"%string else "+"%string in
    let exponent := (sign ++ digits (Z.abs (n - 1)))%string in
    if k =? 1 then (ds ++ "e" ++ exponent)%string
    else (substring 0 1 ds ++ "." ++ substring 1 (Z.to_nat (k - 1)) ds
          ++ "e" ++ exponent)%string.

Definition Number_toString (x : number) : string :=
  match x with
  | S754_nan => "NaN"
  | S754_zero _ => "0"
  | S754_infinity s => (if s then "-Infinity" else "Infinity")%string
  | S754_finite s m e =>
      let '(d, k, n) :=
        shortest 21 m e (decimal_exponent (magnitude m e)) 1 in
      if s then ("-" ++ layout d k n)%string else layout d k n
  end.

(** [String.prototype.padStart]. *)
Definition padStart (s : string) (targetLength : nat) (padString : string)
  : string :=
  let fillLen := (targetLength - String.length s)%nat in
  if (fillLen =? 0)%nat || (String.length padString =? 0)%nat then s
  else (substring 0 fillLen (String.concat EmptyString (repeat padString fillLen)) ++ s)%string.

(** ** [_formatTime] *)

Definition _formatTime (duration : number) : string :=
  let paddedSeconds :=
    padStart (Number_toString (Math_floor (num_rem duration num_60))) 2 "0" in
  let paddedMinutes :=
    padStart (Number_toString (Math_floor (num_div duration num_60))) 2 "0" in
  (paddedMinutes ++ ":" ++ paddedSeconds)%string.

(* ================================================================== *)
(** * Rendering *)

Record AudioPlayButtonProps : Type := {
  play_disabled : bool;
  play_active : bool;
  play_onPress : M unit
}.

Record AudioSettingsButtonProps : Type := {
  title : string;
  iconName : string;
  disabled : bool;
  active : bool;
  onPress : M unit
}.

Record PlayerErrorOverlayProps : Type := { errorMessage : string }.

(** What [AudioPlayer] returns: the play button, the time text, the row of
    settings buttons and the error overlay. *)
Record View : Type := {
  playButton : AudioPlayButtonProps;
  timeText : string;
  settingsButtons : list AudioSettingsButtonProps;
  errorOverlay : option PlayerErrorOverlayProps
}.

Definition isPlayable (props : Props) (playback : PlaybackState) : bool :=
  isAudioEnabled props && isLoaded playback.

(** [playback.isLoaded && f(playback)]. *)
Definition isLoaded_and (playback : PlaybackState) (f : LoadedPlayback -> bool)
  : bool :=
  match playback with
  | Loaded p => f p
  | Unloaded => false
  end.

Definition AudioPlayer (props : Props) (error : ErrorState)
           (playback : PlaybackState) : View :=
  {| playButton :=
       {| play_disabled := negb (isPlayable props playback);
          play_active := isLoaded_and playback isPlaying;
          play_onPress := onPress_PlayPause playback |};
     timeText :=
       match playback with
       | Loaded p =>
           (_formatTime (num_div (positionMillis p) num_1000) ++ " / " ++
            _formatTime (num_div (durationMillis p) num_1000))%string
       | Unloaded => "00:00 / 00:00"%string
       end;
     settingsButtons :=
       [ {| title := "Repeat"; iconName := "repeat";
            disabled := negb (isPlayable props playback);
            active := isLoaded_and playback isLooping;
            onPress := onPress_Repeat playback |};
         {| title := "Slower"; iconName := "hourglass";
            disabled := negb (isPlayable props playback);
            active := isLoaded_and playback (fun p => num_lt (rate p) num_1);
            onPress := onPress_Slower playback |};
         {| title := "Faster"; iconName := "speedometer";
            disabled := negb (isPlayable props playback);
            active := isLoaded_and playback (fun p => num_gt (rate p) num_1);
            onPress := onPress_Faster playback |};
         {| title := "Correct Pitch"; iconName := "stats";
            disabled := negb (isPlayable props playback);
            active := isLoaded_and playback shouldCorrectPitch;
            onPress := onPress_CorrectPitch playback |};
         {| title := "Mute"; iconName := "volume-off";
            disabled := negb (isPlayable props playback);
            active := isLoaded_and playback isMuted;
            onPress := onPress_Mute playback |} ];
     errorOverlay :=
       match error with
       | Some e => Some {| errorMessage := message e |}
       | None => None
       end |}.

(** The [BorderlessButton] under both kinds of button: [enabled] is
    [!props.disabled] and a press runs [onPress] only when it is enabled. *)
Record BorderlessButton : Type := {
  enabled : bool;
  button_onPress : M unit
}.

Definition AudioPlayButton (props : AudioPlayButtonProps) : BorderlessButton :=
  {| enabled := negb (play_disabled props);
     button_onPress := play_onPress props |}.

Definition AudioSettingsButton (props : AudioSettingsButtonProps)
  : BorderlessButton :=
  {| enabled := negb (disabled props);
     button_onPress := onPress props |}.

Definition press (b : BorderlessButton) : M unit :=
  if enabled b then button_onPress b else ret tt.

(* ================================================================== *)
(** * The component in its host: mounting, re-rendering, callbacks *)

Inductive Control : Type :=
| PlayPause | Repeat | Slower | Faster | CorrectPitch | Mute.

Definition control_index (c : Control) : nat :=
  match c with
  | PlayPause => 0 | Repeat => 0 | Slower => 1 | Faster => 2
  | CorrectPitch => 3 | Mute => 4
  end.

(** The button of a control in a rendered view. *)
Definition button_of (v : View) (c : Control) : option BorderlessButton :=
  match c with
  | PlayPause => Some (AudioPlayButton (playButton v))
  | _ => option_map AudioSettingsButton
           (nth_error (settingsButtons v) (control_index c))
  end.

(** The closure a control's button is given, for the captured [playback]. *)
Definition handler (c : Control) (playback : PlaybackState) : M unit :=
  match c with
  | PlayPause => onPress_PlayPause playback
  | Repeat => onPress_Repeat playback
  | Slower => onPress_Slower playback
  | Faster => onPress_Faster playback
  | CorrectPitch => onPress_CorrectPitch playback
  | Mute => onPress_Mute playback
  end.

(** Whether [s] has a status callback after the calls [cs]. *)
Fixpoint subscribed (cs : list (Sound * SoundCall)) (s : Sound) (now : bool)
  : bool :=
  match cs with
  | [] => now
  | (s', setOnPlaybackStatusUpdate b) :: cs' =>
      subscribed cs' s (if Nat.eqb s' s then b else now)
  | _ :: cs' => subscribed cs' s now
  end.

Definition is_unload (s : Sound) (c : Sound * SoundCall) : bool :=
  match c with
  | (s', unloadAsync) => Nat.eqb s' s
  | _ => false
  end.

(** How many times [unloadAsync] was called on [s]. *)
Definition unloads (cs : list (Sound * SoundCall)) (s : Sound) : nat :=
  List.length (filter (is_unload s) cs).

(** A component instance is either not mounted, or mounted with the props
    of its last render and the [Sound] its pending cleanup will release. *)
Record Host : Type := {
  world : World;
  mounted : option (Props * Sound)
}.

Inductive Event : Type :=
| Render (props : Props)
| Unmount
| StatusUpdate (s : Sound) (status : PlaybackStatus)
| LoadRejected (s : Sound) (e : Error)
| Press (c : Control).

Definition held (h : Host) (s : Sound) : bool :=
  match mounted h with
  | Some (_, s') => Nat.eqb s' s
  | None => false
  end.

(** React runs the effect after the first render, and its cleanup followed
    by the effect again after a render in which [props.source.uri] differs;
    it runs the cleanup on unmount.  The runtime calls the status callback
    of a sound only while one is set; a rejected [loadAsync] promise runs
    [setError] on the mounted component. *)
Definition step (h : Host) (ev : Event) : Host :=
  match ev, mounted h with
  | Render props, None =>
      let w0 := {| error := initialErrorState;
                   playback := initialPlaybackState;
                   calls := calls (world h); created := created (world h) |} in
      let (s, w) := effect props w0 in
      {| world := w; mounted := Some (props, s) |}
  | Render props, Some (props0, s0) =>
      if String.eqb (source_uri props0) (source_uri props)
      then {| world := world h; mounted := Some (props, s0) |}
      else
        let (s, w) := (cleanup s0 ;; effect props) (world h) in
        {| world := w; mounted := Some (props, s) |}
  | Unmount, Some (_, s0) =>
      {| world := exec (cleanup s0) (world h); mounted := None |}
  | Unmount, None => h
  | StatusUpdate s status, _ =>
      if subscribed (calls (world h)) s false
      then {| world := exec (handlePlaybackStatusUpdate s status) (world h);
              mounted := mounted h |}
      else h
  | LoadRejected s e, Some _ =>
      if Nat.ltb s (created (world h))
      then {| world := exec (setError (Some e)) (world h);
              mounted := mounted h |}
      else h
  | LoadRejected _ _, None => h
  | Press c, Some (props, _) =>
      let v := AudioPlayer props (error (world h)) (playback (world h)) in
      match button_of v c with
      | Some b => {| world := exec (press b) (world h); mounted := mounted h |}
      | None => h
      end
  | Press _, None => h
  end.

Definition initial_host : Host :=
  {| world := {| error := initialErrorState;
                 playback := initialPlaybackState;
                 calls := []; created := 0 |};
     mounted := None |}.

Definition run (evs : list Event) : Host := fold_left step evs initial_host.

(** [ev] makes the mounted component of [h] leave its current source. *)
Definition exits (h : Host) (ev : Event) : bool :=
  match ev, mounted h with
  | Unmount, Some _ => true
  | Render props, Some (props0, _) =>
      negb (String.eqb (source_uri props0) (source_uri props))
  | _, _ => false
  end.

(* ================================================================== *)
(** * The pattern [^[0-9]{2,}:[0-5][0-9]$] *)

Definition is_digit (c : ascii) : bool :=
  (48 <=? nat_of_ascii c)%nat && (nat_of_ascii c <=? 57)%nat.

Definition is_digit_0_5 (c : ascii) : bool :=
  (48 <=? nat_of_ascii c)%nat && (nat_of_ascii c <=? 53)%nat.

(** The number of leading digits of [s], and what follows them. *)
Fixpoint span_digits (s : string) : nat * string :=
  match s with
  | String c s' =>
      if is_digit c then let (n, rest) := span_digits s' in (S n, rest)
      else (O, s)
  | EmptyString => (O, s)
  end.

Definition matches_MMSS (s : string) : bool :=
  let (n, rest) := span_digits s in
  (2 <=? n)%nat &&
  match rest with
  | String ":" (String a (String b EmptyString)) => is_digit_0_5 a && is_digit b
  | _ => false
  end.

(* ================================================================== *)
(** * Observations on the call log and on status records *)

(** The rate of the last [setRateAsync] among the calls [cs]. *)
Definition last_rate (cs : list (Sound * SoundCall)) : option number :=
  fold_left (fun acc c => match snd c with
                          | setRateAsync r _ _ => Some r
                          | _ => acc
                          end) cs None.

Definition status_rate (st : PlaybackStatus) : option number :=
  match st with
  | StatusLoaded _ _ _ _ _ r _ => Some r
  | StatusNotLoaded _ => None
  end.

(** [w] with the calls [cs] added and nothing else changed. *)
Definition with_calls (w : World) (cs : list (Sound * SoundCall)) : World :=
  {| error := error w; playback := playback w;
     calls := calls w ++ cs; created := created w |}.

(** A loaded state at rate 1, and the status the runtime reports once the
    rate 0.5 has taken effect. *)
Definition at_rate_1 : LoadedPlayback :=
  {| sound := 0%nat; positionMillis := num_0; durationMillis := num_1000;
     isPlaying := false; isLooping := false; isMuted := false;
     rate := num_1; shouldCorrectPitch := false |}.

Definition status_at_rate_0_5 : PlaybackStatus :=
  StatusLoaded num_0 num_1000 false false false num_0_5 false.

Definition empty_world : World :=
  {| error := None; playback := Unloaded; calls := []; created := 1 |}.

(** Two renders of the component that differ in [source.uri]. *)
Definition source_a : Props := {| isAudioEnabled := true; source_uri := "a" |}.
Definition source_b : Props := {| isAudioEnabled := true; source_uri := "b" |}.

(* ================================================================== *)
(** * Predicates used in the statements *)

(** The calls a control makes: never a subscription, never an unload. *)
Definition is_control_call (c : Sound * SoundCall) : bool :=
  match snd c with
  | setOnPlaybackStatusUpdate _ | loadAsync _ _ | unloadAsync => false
  | _ => true
  end.

(** The calls of the cleanup closure and of the effect body. *)
Definition cleanup_calls (s0 : Sound) : list (Sound * SoundCall) :=
  [(s0, setOnPlaybackStatusUpdate false); (s0, unloadAsync)].

Definition effect_calls (n : Sound) (props : Props)
  : list (Sound * SoundCall) :=
  [(n, setOnPlaybackStatusUpdate true);
   (n, loadAsync (source_uri props) num_150)].

(** What holds of a host after any events: the sound the mounted component
    holds was created, was not unloaded and has the callback; every other
    sound created so far was unloaded once and has no callback any more; no
    unload was called on a sound not yet created. *)
Definition released_once (h : Host) : Prop :=
  forall s,
    (held h s = true ->
     unloads (calls (world h)) s = 0%nat /\
     subscribed (calls (world h)) s false = true /\
     (s < created (world h))%nat) /\
    (held h s = false ->
     subscribed (calls (world h)) s false = false /\
     ((s < created (world h))%nat -> unloads (calls (world h)) s = 1%nat) /\
     ((created (world h) <= s)%nat -> unloads (calls (world h)) s = 0%nat)).

(** A string of digits. *)
Fixpoint all_digits (s : string) : bool :=
  match s with
  | String c s' => is_digit c && all_digits s'
  | EmptyString => true
  end.

(** A string a time field may consist of: two or more digits. *)
Definition is_field (s : string) : Prop :=
  all_digits s = true /\ (2 <= String.length s)%nat.

(** Two characters, a digit up to 5 and a digit. *)
Definition is_seconds (s : string) : bool :=
  match s with
  | String a (String b EmptyString) => is_digit_0_5 a && is_digit b
  | _ => false
  end.

(** What a rounded number looks like: its sign is the one asked for, and
    its significand has at most 53 bits. *)
Definition rounded (sx : bool) (r : number) : Prop :=
  match r with
  | S754_finite s m _ => s = sx /\ Zpos m < 2 ^ 53
  | S754_zero s | S754_infinity s => s = sx
  | S754_nan => True
  end.

(** A positive number below 60, with a fraction. *)
Definition below_60 (x : number) : Prop :=
  exists m e, x = S754_finite false m e /\ e < 0 /\ Zpos m < 60 * 2 ^ (- e).

(* ================================================================== *)
(** * Definitions for the life cycle, the controls and the clock *)

(** The calls made on the sound [s], oldest first. *)
Definition calls_on (cs : list (Sound * SoundCall)) (s : Sound)
  : list (Sound * SoundCall) :=
  filter (fun c => Nat.eqb (fst c) s) cs.

(** The life of every sound: the calls on a sound not yet created are none;
    those on a created sound are the two of the effect, then calls of the
    controls, then, once it is no longer held, the two of the cleanup.  The
    held sound was loaded from the [source.uri] of the last render, and a
    [Loaded] view-state holds no other sound than the held one. *)
Definition follows_protocol (h : Host) : Prop :=
  (forall p, playback (world h) = Loaded p -> held h (sound p) = true) /\
  forall s,
    ((created (world h) <= s)%nat -> calls_on (calls (world h)) s = []) /\
    ((s < created (world h))%nat ->
     exists props_s ctl,
       forallb is_control_call ctl = true /\
       calls_on (calls (world h)) s
       = effect_calls s props_s ++ ctl
         ++ (if held h s then [] else cleanup_calls s) /\
       (held h s = true ->
        exists props, mounted h = Some (props, s) /\
                      source_uri props = source_uri props_s)).

(** The [loadAsync] calls. *)
Definition is_load (c : Sound * SoundCall) : bool :=
  match snd c with
  | loadAsync _ _ => true
  | _ => false
  end.

(** A host in which a first sound has been loaded and reported. *)
Definition loaded_host : Host :=
  run [Render source_a; StatusUpdate 0%nat status_at_rate_0_5].

(** The events through which the runtime reports to the component. *)
Definition is_report (ev : Event) : bool :=
  match ev with
  | StatusUpdate _ _ | LoadRejected _ _ => true
  | _ => false
  end.

(** An error a rejected [loadAsync] promise carries. *)
Definition load_failed : Error := {| message := "load failed" |}.


(** What a status update reports for the three toggles. *)
Definition status_isLooping (st : PlaybackStatus) : option bool :=
  match st with
  | StatusLoaded _ _ _ looping _ _ _ => Some looping
  | StatusNotLoaded _ => None
  end.

Definition status_isMuted (st : PlaybackStatus) : option bool :=
  match st with
  | StatusLoaded _ _ _ _ muted _ _ => Some muted
  | StatusNotLoaded _ => None
  end.

Definition status_shouldCorrectPitch (st : PlaybackStatus) : option bool :=
  match st with
  | StatusLoaded _ _ _ _ _ _ pitch => Some pitch
  | StatusNotLoaded _ => None
  end.

(** The settings button of a control in a rendered view. *)
Definition settings_button (v : View) (c : Control)
  : option AudioSettingsButtonProps :=
  nth_error (settingsButtons v) (control_index c).

(** A press of [c], the status update [st] for the same sound, and a second
    press of [c] through the re-rendered closure. *)
Definition press_twice (c : Control) (p : LoadedPlayback)
           (st : PlaybackStatus) (w : World) : World :=
  let w1 := exec (handler c (Loaded p)) w in
  let w2 := exec (handlePlaybackStatusUpdate (sound p) st) w1 in
  exec (handler c (playback w2)) w2.

(** The last call made. *)
Definition last_call (w : World) : option (Sound * SoundCall) :=
  last (map Some (calls w)) None.

(** A loaded state with every toggle on. *)
Definition muted_and_looping : LoadedPlayback :=
  {| sound := 0%nat; positionMillis := num_0; durationMillis := num_1000;
     isPlaying := true; isLooping := true; isMuted := true;
     rate := num_2; shouldCorrectPitch := true |}.

(** A natural number as a binary64 number. *)
Definition num_of_natural (n : Z) : number :=
  match n with
  | Zpos p => normalize false p 0
  | _ => S754_zero false
  end.

(** The integer part [floor(m * 2^e)]. *)
Definition integer_part (m : positive) (e : Z) : Z :=
  if 0 <=? e then Zpos m * 2 ^ e else Zpos m / 2 ^ (- e).

(** The value [m * 2^e] seen through its floor. *)
Definition floor_of (m e : Z) : Z := m / 2 ^ (- e).

(** The clock reading of a whole number of seconds, in integer
    arithmetic: the reference [_formatTime] is compared with. *)
Definition clock_of_seconds (t : Z) : string :=
  (padStart (digits (t / 60)) 2 "0" ++ ":" ++
   padStart (digits (t mod 60)) 2 "0")%string.

(** Zero, or a normal number from [2^-948] up to, not including, [2^53]. *)
Definition in_display_range (d : number) : bool :=
  match d with
  | S754_zero _ => true
  | S754_finite false m e =>
      (2 ^ 52 <=? Zpos m) && (Zpos m <? 2 ^ 53) && (-1000 <=? e) && (e <=? 0)
  | _ => false
  end.

(** The integer part of a number that is not negative. *)
Definition floor_Z (d : number) : Z :=
  match d with
  | S754_finite false m e => integer_part m e
  | _ => 0
  end.

(* ================================================================== *)
(** * Comparison of numbers *)

Lemma SFleb_not_SFltb (x y : number) : SFleb y x = true -> SFltb x y = false.
Proof.
  unfold SFleb, SFltb.
  destruct x as [sx|sx| |sx mx ex], y as [sy|sy| |sy my ey]; cbn;
    try reflexivity; try discriminate;
    try (destruct sx; try destruct sy; cbn; congruence).
  rewrite (Z.compare_antisym ey ex).
  replace (PosDef.Pos.compare_cont Eq my mx)
    with (CompOpp (PosDef.Pos.compare_cont Eq mx my))
    by apply (Pos.compare_cont_antisym mx my Eq).
  destruct sx, sy; cbn; try congruence;
    destruct (ey ?= ex); cbn; try congruence;
    destruct (PosDef.Pos.compare_cont Eq mx my); cbn; congruence.
Qed.

(* ================================================================== *)
(** * ControlDispatcher *)

Lemma last_rate_app_setRate cs s r b q :
  last_rate (cs ++ [(s, setRateAsync r b q)]) = Some r.
Proof. unfold last_rate. rewrite fold_left_app. reflexivity. Qed.

(** C1, as amended.  From a loaded state at rate 1, Slower dispatches rate
    0.5; once a status update has reported that rate, Faster dispatches rate
    2: the two buttons are independent two-way toggles against 1. *)
Theorem slower_then_faster_dispatches_2 :
  forall (p : LoadedPlayback) (st : PlaybackStatus) (w : World),
    rate p = num_1 ->
    status_rate st = last_rate (calls (exec (onPress_Slower (Loaded p)) w)) ->
    let w1 := exec (onPress_Slower (Loaded p)) w in
    let w2 := exec (handlePlaybackStatusUpdate (sound p) st) w1 in
    last_rate (calls w1) = Some num_0_5 /\
    last_rate (calls (exec (onPress_Faster (playback w2)) w2)) = Some num_2.
Proof.
  intros p st w Hrate Hst w1 w2.
  assert (H1 : last_rate (calls w1) = Some num_0_5).
  { subst w1. cbn. rewrite Hrate. cbn. apply last_rate_app_setRate. }
  split; [exact H1|].
  fold w1 in Hst. rewrite H1 in Hst.
  destruct st as [err|pos dur pl lo mu r pitch]; cbn in Hst; [discriminate|].
  injection Hst as ->.
  subst w2. cbn. apply last_rate_app_setRate.
Qed.

Lemma slower_then_faster_dispatches_2_witness :
  last_rate (calls (exec (onPress_Slower (Loaded at_rate_1)) empty_world))
    = Some num_0_5 /\
  last_rate
    (calls
       (exec (onPress_Faster
                (playback
                   (exec (handlePlaybackStatusUpdate 0%nat status_at_rate_0_5)
                         (exec (onPress_Slower (Loaded at_rate_1))
                               empty_world))))
             (exec (handlePlaybackStatusUpdate 0%nat status_at_rate_0_5)
                   (exec (onPress_Slower (Loaded at_rate_1)) empty_world))))
    = Some num_2.
Proof.
  apply (slower_then_faster_dispatches_2 at_rate_1 status_at_rate_0_5
           empty_world); reflexivity.
Defined.

(** C1, as stated, fails: at rate 1, after Slower and the status update
    reporting rate 0.5, Faster does not dispatch rate 1. *)
Lemma slower_then_faster_not_1 :
  rate at_rate_1 = num_1 /\
  status_rate status_at_rate_0_5
    = last_rate (calls (exec (onPress_Slower (Loaded at_rate_1)) empty_world)) /\
  let w1 := exec (onPress_Slower (Loaded at_rate_1)) empty_world in
  let w2 := exec (handlePlaybackStatusUpdate 0%nat status_at_rate_0_5) w1 in
  last_rate (calls (exec (onPress_Faster (playback w2)) w2)) <> Some num_1.
Proof.
  split; [reflexivity|]. split; [reflexivity|].
  cbv zeta. vm_compute. discriminate.
Qed.

(** C2.  Slower dispatches [setRateAsync] with rate 1 when the current rate
    is below 1 and with 0.5 otherwise; Faster dispatches it with rate 1 when
    the current rate is above 1 and with 2 otherwise.  Nothing else
    changes. *)
Theorem slower_faster_dispatch :
  forall (p : LoadedPlayback) (w : World),
    (exists r,
        exec (onPress_Slower (Loaded p)) w
        = with_calls w [(sound p, setRateAsync r (shouldCorrectPitch p) High)]
        /\ (num_lt (rate p) num_1 = true -> r = num_1)
        /\ (num_lt (rate p) num_1 = false -> r = num_0_5)) /\
    (exists r,
        exec (onPress_Faster (Loaded p)) w
        = with_calls w [(sound p, setRateAsync r (shouldCorrectPitch p) High)]
        /\ (num_gt (rate p) num_1 = true -> r = num_1)
        /\ (num_gt (rate p) num_1 = false -> r = num_2)).
Proof.
  intros p w. split.
  - exists (if num_lt (rate p) num_1 then num_1 else num_0_5).
    split; [reflexivity|].
    destruct (num_lt (rate p) num_1); split; congruence.
  - exists (if num_gt (rate p) num_1 then num_1 else num_2).
    split; [reflexivity|].
    destruct (num_gt (rate p) num_1); split; congruence.
Qed.

(** C3.  The play/pause button calls [pauseAsync] when playing; otherwise
    [playFromPositionAsync(0)] when [positionMillis < durationMillis], and
    [playAsync] when that comparison fails, in particular when
    [positionMillis >= durationMillis]. *)
Theorem play_pause_dispatch :
  forall (p : LoadedPlayback) (w : World),
    exists c,
      exec (onPress_PlayPause (Loaded p)) w = with_calls w [(sound p, c)]
      /\ (isPlaying p = true -> c = pauseAsync)
      /\ (isPlaying p = false ->
          num_lt (positionMillis p) (durationMillis p) = true ->
          c = playFromPositionAsync num_0)
      /\ (isPlaying p = false ->
          num_lt (positionMillis p) (durationMillis p) = false ->
          c = playAsync)
      /\ (isPlaying p = false ->
          num_ge (positionMillis p) (durationMillis p) = true ->
          c = playAsync).
Proof.
  intros p w.
  exists (if isPlaying p then pauseAsync
          else if num_lt (positionMillis p) (durationMillis p)
               then playFromPositionAsync num_0 else playAsync).
  split.
  - cbn. destruct (isPlaying p); [reflexivity|].
    destruct (num_lt (positionMillis p) (durationMillis p)); reflexivity.
  - repeat split; intros Hp; rewrite Hp; try reflexivity.
    + intros ->. reflexivity.
    + intros ->. reflexivity.
    + intros Hge. unfold num_ge in Hge. unfold num_lt.
      rewrite (SFleb_not_SFltb _ _ Hge). reflexivity.
Qed.

(** C8.  The pitch toggle calls [setRateAsync] with the current rate and the
    negated [shouldCorrectPitch]; Slower, Faster and the pitch toggle all pass
    the quality [High], whatever [shouldCorrectPitch] is. *)
Theorem pitch_toggle_keeps_rate_and_quality_is_High :
  forall (p : LoadedPlayback) (w : World),
    exec (onPress_CorrectPitch (Loaded p)) w
    = with_calls w [(sound p,
                     setRateAsync (rate p) (negb (shouldCorrectPitch p)) High)]
    /\ forall c, In c [Slower; Faster; CorrectPitch] ->
         exists r b,
           exec (handler c (Loaded p)) w
           = with_calls w [(sound p, setRateAsync r b High)].
Proof.
  intros p w. split; [reflexivity|].
  intros c [<-|[<-|[<-|[]]]]; do 2 eexists; reflexivity.
Qed.

(** C10.  With the view-state [Unloaded], the closure of every control makes
    no call and changes neither state cell, whether it is run directly or
    through its (disabled or not) button. *)
Theorem handlers_do_nothing_when_Unloaded :
  forall (c : Control) (props : Props) (err : ErrorState) (w : World),
    handler c Unloaded w = (tt, w) /\
    exists b,
      button_of (AudioPlayer props err Unloaded) c = Some b
      /\ button_onPress b w = (tt, w)
      /\ press b w = (tt, w).
Proof.
  intros c props err w. split; [destruct c; reflexivity|].
  destruct c; cbn; eexists; (split; [reflexivity|]); cbn;
    (split; [reflexivity|]); unfold press; cbn;
    destruct (negb (negb (isPlayable props Unloaded))); reflexivity.
Qed.

(* ================================================================== *)
(** * PlaybackStatusProjector *)


(** C5.  A loaded status update replaces the view-state by [Loaded] with the
    sound and the eight fields of the status, whatever the previous state
    was, and clears the error. *)
Theorem success_update_loads_snapshot :
  forall (s : Sound) (pos dur : number) (playing looping muted : bool)
         (r : number) (pitch : bool) (w : World),
    let w' := exec (handlePlaybackStatusUpdate s
                      (StatusLoaded pos dur playing looping muted r pitch)) w in
    playback w' = Loaded {| sound := s;
                            positionMillis := pos;
                            durationMillis := dur;
                            isPlaying := playing;
                            isLooping := looping;
                            isMuted := muted;
                            rate := r;
                            shouldCorrectPitch := pitch |} /\
    isLoaded (playback w') = true /\
    error w' = None /\
    calls w' = calls w /\
    created w' = created w.
Proof. intros. subst w'. cbn. repeat split. Qed.

(* ================================================================== *)
(** * Enabling of the controls *)

(** C6.  The play button and the five settings buttons are disabled exactly
    when [isAudioEnabled] is false or the view-state is not [Loaded]; with
    the view-state [Unloaded] all six are disabled. *)
Theorem controls_disabled_unless_playable :
  forall (props : Props) (err : ErrorState) (playback : PlaybackState),
    let v := AudioPlayer props err playback in
    play_disabled (playButton v)
    = negb (isAudioEnabled props && isLoaded playback) /\
    map title (settingsButtons v)
    = ["Repeat"; "Slower"; "Faster"; "Correct Pitch"; "Mute"]%string /\
    Forall (fun b => disabled b
                     = negb (isAudioEnabled props && isLoaded playback))
           (settingsButtons v) /\
    (forall c, exists b, button_of v c = Some b /\
                         enabled b = isAudioEnabled props && isLoaded playback) /\
    (playback = Unloaded ->
     play_disabled (playButton v) = true /\
     Forall (fun b => disabled b = true) (settingsButtons v)).
Proof.
  intros props err pb v. subst v. cbn. unfold isPlayable.
  split; [reflexivity|]. split; [reflexivity|].
  split; [repeat constructor|].
  split.
  - intros c; destruct c; cbn; eexists; (split; [reflexivity|]); cbn;
      apply negb_involutive.
  - intros ->. cbn. rewrite andb_false_r. split; [reflexivity|].
    repeat constructor.
Qed.

Lemma controls_disabled_unless_playable_witness :
  play_disabled (playButton (AudioPlayer source_a None Unloaded)) = true /\
  Forall (fun b => disabled b = true)
         (settingsButtons (AudioPlayer source_a None Unloaded)).
Proof.
  apply (controls_disabled_unless_playable source_a None Unloaded).
  reflexivity.
Defined.

(* ================================================================== *)
(** * Acquisition and release of the sound *)

Lemma unloads_app cs cs' s :
  unloads (cs ++ cs') s = (unloads cs s + unloads cs' s)%nat.
Proof. unfold unloads. rewrite filter_app, length_app. reflexivity. Qed.

Lemma subscribed_app cs cs' s now :
  subscribed (cs ++ cs') s now = subscribed cs' s (subscribed cs s now).
Proof.
  revert now. induction cs as [|[s' c] cs IH]; intros now; [reflexivity|].
  destruct c; cbn; apply IH.
Qed.

Lemma unloads_control_calls cs s :
  forallb is_control_call cs = true -> unloads cs s = 0%nat.
Proof.
  induction cs as [|[s' c] cs IH]; [reflexivity|].
  cbn. intros H. apply andb_prop in H as [Hc H].
  destruct c; try discriminate; cbn; apply (IH H).
Qed.

Lemma subscribed_control_calls cs s now :
  forallb is_control_call cs = true -> subscribed cs s now = now.
Proof.
  induction cs as [|[s' c] cs IH]; [reflexivity|].
  cbn. intros H. apply andb_prop in H as [Hc H].
  destruct c; try discriminate; cbn; apply (IH H).
Qed.

Lemma handler_calls (c : Control) (pb : PlaybackState) (w : World) :
  exists cs, exec (handler c pb) w = with_calls w cs
             /\ forallb is_control_call cs = true.
Proof.
  assert (Hnil : w = with_calls w []).
  { destruct w. unfold with_calls. cbn. rewrite app_nil_r. reflexivity. }
  destruct pb as [|p].
  - exists []. split; [|reflexivity]. destruct c; exact Hnil.
  - destruct c; cbn.
    + destruct (isPlaying p); [|destruct (num_lt _ _)];
        eexists; (split; [reflexivity|reflexivity]).
    + eexists; (split; [reflexivity|reflexivity]).
    + eexists; (split; [reflexivity|reflexivity]).
    + eexists; (split; [reflexivity|reflexivity]).
    + eexists; (split; [reflexivity|reflexivity]).
    + eexists; (split; [reflexivity|reflexivity]).
Qed.

Lemma button_of_AudioPlayer props err pb c :
  exists b, button_of (AudioPlayer props err pb) c = Some b
            /\ button_onPress b = handler c pb.
Proof. destruct c; eexists; (split; [reflexivity|reflexivity]). Qed.

Lemma effect_eq props w :
  effect props w
  = (created w, {| error := error w; playback := playback w;
                   calls := calls w ++ effect_calls (created w) props;
                   created := S (created w) |}).
Proof.
  unfold effect, bind, new_Sound, call, ret. cbn.
  rewrite <- app_assoc. reflexivity.
Qed.

Lemma cleanup_eq s0 w :
  cleanup s0 w
  = (tt, {| error := error w; playback := Unloaded;
            calls := calls w ++ cleanup_calls s0;
            created := created w |}).
Proof.
  unfold cleanup, bind, setPlayback, call. cbn.
  rewrite <- app_assoc. reflexivity.
Qed.

Lemma unloads_cleanup_calls s0 s :
  unloads (cleanup_calls s0) s = (if Nat.eqb s0 s then 1 else 0)%nat.
Proof. unfold unloads. cbn. destruct (Nat.eqb s0 s); reflexivity. Qed.

Lemma unloads_effect_calls n props s : unloads (effect_calls n props) s = 0%nat.
Proof. reflexivity. Qed.

Lemma subscribed_cleanup_calls s0 s now :
  subscribed (cleanup_calls s0) s now = if Nat.eqb s0 s then false else now.
Proof. reflexivity. Qed.

Lemma subscribed_effect_calls n props s now :
  subscribed (effect_calls n props) s now = if Nat.eqb n s then true else now.
Proof. reflexivity. Qed.

Lemma released_once_initial : released_once initial_host.
Proof.
  intros s. unfold held. cbn. split; [discriminate|].
  intros _. repeat split. lia.
Qed.

Ltac host_simpl :=
  cbn [world mounted calls created error playback fst snd];
  rewrite ?unloads_app, ?subscribed_app,
    ?unloads_cleanup_calls, ?unloads_effect_calls,
    ?subscribed_cleanup_calls, ?subscribed_effect_calls.

Lemma released_once_mount (w : World) (props : Props) :
  (forall s, subscribed (calls w) s false = false /\
             ((s < created w)%nat -> unloads (calls w) s = 1%nat) /\
             ((created w <= s)%nat -> unloads (calls w) s = 0%nat)) ->
  forall e pb,
    released_once
      {| world := {| error := e; playback := pb;
                     calls := calls w ++ effect_calls (created w) props;
                     created := S (created w) |};
         mounted := Some (props, created w) |}.
Proof.
  intros Hw e pb s. destruct (Hw s) as (Hs & H1 & H0).
  unfold held. host_simpl. rewrite Hs.
  destruct (Nat.eqb_spec (created w) s) as [<-|Hne].
  - split; [|discriminate]. intros _. rewrite H0 by lia.
    repeat split; lia.
  - split; [discriminate|]. intros _. split; [reflexivity|].
    split; intros Hlt; [rewrite H1 by lia|rewrite H0 by lia]; reflexivity.
Qed.

Lemma released_once_step h ev : released_once h -> released_once (step h ev).
Proof.
  intros Inv.
  destruct ev as [props| |s0 st|s0 e|c]; unfold step.
  - (* Render *)
    destruct (mounted h) as [[props0 s0]|] eqn:Hm.
    + destruct (String.eqb (source_uri props0) (source_uri props)).
      * intros s. specialize (Inv s). unfold held in *. rewrite Hm in Inv.
        exact Inv.
      * unfold bind. rewrite cleanup_eq, effect_eq.
        cbn [world mounted calls created error playback fst snd].
        apply (released_once_mount
                 {| error := error (world h); playback := Unloaded;
                    calls := calls (world h) ++ cleanup_calls s0;
                    created := created (world h) |}).
        intros s. destruct (Inv s) as (Hheld & Hfree).
        unfold held in Hheld, Hfree. rewrite Hm in Hheld, Hfree.
        host_simpl.
        destruct (Nat.eqb_spec s0 s) as [->|Hne].
        -- destruct (Hheld eq_refl) as (Hu & _ & Hlt). rewrite Hu.
           repeat split; lia.
        -- destruct (Hfree eq_refl) as (Hs & H1 & H0). rewrite Hs.
           split; [reflexivity|].
           split; intros Hlt; [rewrite H1 by lia|rewrite H0 by lia]; reflexivity.
    + rewrite effect_eq.
      cbn [world mounted calls created error playback fst snd].
      apply (released_once_mount
               {| error := initialErrorState; playback := initialPlaybackState;
                  calls := calls (world h);
                  created := created (world h) |}).
      intros s. destruct (Inv s) as (_ & Hfree).
      unfold held in Hfree. rewrite Hm in Hfree. exact (Hfree eq_refl).
  - (* Unmount *)
    destruct (mounted h) as [[props0 s0]|] eqn:Hm; [|exact Inv].
    unfold exec. rewrite cleanup_eq.
    intros s. destruct (Inv s) as (Hheld & Hfree).
    unfold held in *. rewrite Hm in Hheld, Hfree. host_simpl.
    split; [discriminate|]. intros _.
    destruct (Nat.eqb_spec s0 s) as [->|Hne].
    + destruct (Hheld eq_refl) as (Hu & _ & Hlt). rewrite Hu.
      repeat split; lia.
    + destruct (Hfree eq_refl) as (Hs & H1 & H0). rewrite Hs.
      split; [reflexivity|].
      split; intros Hlt; [rewrite H1 by lia|rewrite H0 by lia]; reflexivity.
  - (* StatusUpdate *)
    destruct (subscribed (calls (world h)) s0 false); [|exact Inv].
    intros s. specialize (Inv s). unfold held in *.
    destruct st; exact Inv.
  - (* LoadRejected *)
    destruct (mounted h) as [[props0 s1]|] eqn:Hm; [|exact Inv].
    destruct (Nat.ltb s0 (created (world h))); [|exact Inv].
    intros s. specialize (Inv s). unfold held in *.
    cbn [world mounted]. rewrite Hm in Inv. exact Inv.
  - (* Press *)
    destruct (mounted h) as [[props0 s1]|] eqn:Hm; [|exact Inv].
    destruct (button_of_AudioPlayer props0 (error (world h))
                (playback (world h)) c) as (b & -> & Hb).
    unfold press. destruct (enabled b).
    + destruct (handler_calls c (playback (world h)) (world h))
        as (cs & Hexec & Hcs).
      rewrite Hb, Hexec.
      intros s. specialize (Inv s).
      unfold held in *. unfold with_calls. host_simpl. rewrite Hm in Inv.
      rewrite (unloads_control_calls _ _ Hcs),
        (subscribed_control_calls _ _ _ Hcs), Nat.add_0_r.
      exact Inv.
    + intros s. specialize (Inv s). unfold held in *.
      cbn [world mounted]. rewrite Hm in Inv. exact Inv.
Qed.

Lemma released_once_run evs : released_once (run evs).
Proof.
  unfold run. generalize released_once_initial.
  generalize initial_host as h.
  induction evs as [|ev evs IH]; intros h Inv; [exact Inv|].
  cbn. apply IH. apply released_once_step. exact Inv.
Qed.

Lemma run_snoc evs ev : run (evs ++ [ev]) = step (run evs) ev.
Proof. unfold run. rewrite fold_left_app. reflexivity. Qed.

Lemma exits_releases h ev :
  exits h ev = true ->
  playback (world (step h ev)) = Unloaded /\
  (created (world h) <= created (world (step h ev)))%nat /\
  forall s, held h s = true -> (s < created (world h))%nat ->
            held (step h ev) s = false.
Proof.
  unfold exits, step, held.
  destruct ev as [props| |s0 st|s0 e|c];
    destruct (mounted h) as [[props0 s1]|]; try discriminate.
  - destruct (String.eqb (source_uri props0) (source_uri props));
      [discriminate|]. intros _.
    unfold bind. rewrite cleanup_eq, effect_eq.
    cbn [world mounted calls created error playback fst snd].
    split; [reflexivity|]. split; [lia|].
    intros s _ Hlt. apply Nat.eqb_neq. lia.
  - intros _. unfold exec. rewrite cleanup_eq.
    cbn [world mounted calls created error playback fst snd].
    split; [reflexivity|]. split; [lia|]. reflexivity.
Qed.

(** C9.  After any sequence of renders, unmounts, status updates, load
    rejections and presses, every sound the effect has created but the one
    still held has had [unloadAsync] called on it exactly once and has no
    status callback; the held one has not been unloaded.  A source change or
    an unmount leaves the view-state [Unloaded], and the sound held before it
    has then been unloaded exactly once and has its callback cancelled,
    whether or not a loaded status had ever arrived for it. *)
Theorem every_sound_is_unloaded_exactly_once :
  forall (evs : list Event),
    let h := run evs in
    (forall s, (s < created (world h))%nat ->
               unloads (calls (world h)) s = (if held h s then 0 else 1)%nat /\
               subscribed (calls (world h)) s false = held h s) /\
    (forall ev s, exits h ev = true -> held h s = true ->
                  playback (world (step h ev)) = Unloaded /\
                  unloads (calls (world h)) s = 0%nat /\
                  unloads (calls (world (step h ev))) s = 1%nat /\
                  subscribed (calls (world (step h ev))) s false = false).
Proof.
  intros evs h. subst h. split.
  - intros s Hs. destruct (released_once_run evs s) as (Hheld & Hfree).
    destruct (held (run evs) s).
    + destruct (Hheld eq_refl) as (Hu & Hsub & _). split; assumption.
    + destruct (Hfree eq_refl) as (Hsub & H1 & _). split; auto.
  - intros ev s Hex Hheld.
    destruct (exits_releases _ _ Hex) as (Hpb & Hmono & Hrel).
    destruct (released_once_run evs s) as (Hh & _).
    destruct (Hh Hheld) as (Hu & _ & Hlt).
    destruct (released_once_run (evs ++ [ev]) s) as (_ & Hfree).
    rewrite run_snoc in Hfree.
    destruct (Hfree (Hrel s Hheld Hlt)) as (Hsub' & H1 & _).
    repeat split; try assumption. apply H1. lia.
Qed.

(** The source changes while the first load is still in flight: no status
    update has arrived for sound 0 when it is released. *)
Lemma every_sound_is_unloaded_exactly_once_witness :
  let h := run [Render source_a] in
  exits h (Render source_b) = true /\
  held h 0%nat = true /\
  playback (world (step h (Render source_b))) = Unloaded /\
  unloads (calls (world h)) 0%nat = 0%nat /\
  unloads (calls (world (step h (Render source_b)))) 0%nat = 1%nat /\
  subscribed (calls (world (step h (Render source_b)))) 0%nat false = false.
Proof.
  split; [reflexivity|]. split; [reflexivity|].
  apply (proj2 (every_sound_is_unloaded_exactly_once [Render source_a])
               (Render source_b) 0%nat); reflexivity.
Defined.

(* ================================================================== *)
(** * Strings of digits *)

Lemma span_digits_field (a b : string) :
  all_digits a = true ->
  span_digits (a ++ String ":" b) = (String.length a, String ":" b).
Proof.
  induction a as [|c a IH]; cbn; [reflexivity|].
  intros H. apply andb_prop in H as [Hc Ha].
  rewrite Hc, (IH Ha). reflexivity.
Qed.

Lemma matches_MMSS_fields (mins secs : string) :
  is_field mins -> is_seconds secs = true ->
  matches_MMSS (mins ++ ":" ++ secs) = true.
Proof.
  intros [Hd Hlen] Hs. unfold matches_MMSS.
  change (":" ++ secs)%string with (String ":" secs).
  rewrite (span_digits_field _ _ Hd).
  apply Nat.leb_le in Hlen. rewrite Hlen. cbn.
  destruct secs as [|a [|b [|]]]; try discriminate. exact Hs.
Qed.

Lemma all_digits_app (a b : string) :
  all_digits (a ++ b) = all_digits a && all_digits b.
Proof.
  induction a as [|c a IH]; cbn; [reflexivity|].
  rewrite IH, andb_assoc. reflexivity.
Qed.

Lemma is_digit_digit (n : Z) : n < 10 -> is_digit (digit n) = true.
Proof.
  intros Hn. unfold digit.
  assert (Hk : (Z.to_nat n < 10)%nat) by lia.
  destruct (Z.to_nat n) as [|k]; [reflexivity|].
  do 9 (destruct k as [|k]; [reflexivity|]). lia.
Qed.

Lemma all_digits_digits_fuel (fuel : nat) (n : Z) :
  all_digits (digits_fuel fuel n) = true.
Proof.
  revert n. induction fuel as [|fuel IH]; intros n; cbn [digits_fuel];
    [reflexivity|].
  destruct (Z.ltb_spec n 10) as [Hlt|Hge]; cbn [all_digits].
  - rewrite is_digit_digit by exact Hlt. reflexivity.
  - rewrite all_digits_app, IH. cbn [all_digits].
    rewrite is_digit_digit; [reflexivity|].
    apply Z.mod_pos_bound. lia.
Qed.

Lemma length_append (a b : string) :
  String.length (a ++ b) = (String.length a + String.length b)%nat.
Proof. induction a as [|c a IH]; cbn; [reflexivity|]. rewrite IH. reflexivity. Qed.

Lemma digits_fuel_nonempty (fuel : nat) (n : Z) :
  (1 <= String.length (digits_fuel (S fuel) n))%nat.
Proof.
  cbn [digits_fuel]. destruct (n <? 10); [cbn; lia|].
  rewrite length_append. cbn [String.length]. lia.
Qed.

Lemma length_digits_fuel_le (fuel : nat) (n : Z) (j : nat) :
  (1 <= j)%nat -> n < 10 ^ Z.of_nat j ->
  (String.length (digits_fuel fuel n) <= j)%nat.
Proof.
  revert n j. induction fuel as [|fuel IH]; intros n j Hj Hn;
    cbn [digits_fuel]; [cbn; lia|].
  destruct (Z.ltb_spec n 10) as [Hlt|Hge]; [cbn; lia|].
  rewrite length_append. cbn [String.length].
  destruct j as [|[|j]]; [lia| |].
  - change (10 ^ Z.of_nat 1) with 10 in Hn. lia.
  - assert (H : (String.length (digits_fuel fuel (n / 10)) <= S j)%nat).
    { apply IH; [lia|].
      apply Z.div_lt_upper_bound; [lia|].
      replace (Z.of_nat (S (S j))) with (Z.succ (Z.of_nat (S j))) in Hn by lia.
      rewrite Z.pow_succ_r in Hn by lia. exact Hn. }
    lia.
Qed.

Lemma all_digits_digits (n : Z) : all_digits (digits n) = true.
Proof. apply all_digits_digits_fuel. Qed.

Lemma digits_nonempty (n : Z) : (1 <= String.length (digits n))%nat.
Proof. apply digits_fuel_nonempty. Qed.

Lemma ndigits_le (n : Z) (j : nat) :
  (1 <= j)%nat -> n < 10 ^ Z.of_nat j -> 1 <= ndigits n <= Z.of_nat j.
Proof.
  intros Hj Hn. unfold ndigits.
  pose proof (digits_nonempty n).
  pose proof (length_digits_fuel_le (S (Z.to_nat (Z.log2 n))) n j Hj Hn).
  unfold digits in *. lia.
Qed.

Lemma all_digits_zeros (n : nat) : all_digits (zeros n) = true.
Proof. induction n; cbn; auto. Qed.

Lemma padStart_field (s : string) :
  all_digits s = true -> (1 <= String.length s)%nat ->
  is_field (padStart s 2 "0").
Proof.
  intros Hd Hlen. destruct s as [|a [|b s]]; cbn in Hlen; [lia| |].
  - cbn in Hd. rewrite andb_true_r in Hd.
    split; [cbn; rewrite Hd; reflexivity|cbn; lia].
  - split; [exact Hd|cbn; lia].
Qed.

(** The layout of a decimal without fraction and below [10^21]. *)
Lemma layout_integer (s k n : Z) :
  k <= n <= 21 ->
  all_digits (layout s k n) = true /\ (1 <= String.length (layout s k n))%nat.
Proof.
  intros [Hk Hn]. unfold layout.
  apply Z.leb_le in Hk, Hn. rewrite Hk, Hn. cbn [andb].
  rewrite all_digits_app, all_digits_digits, all_digits_zeros, length_append.
  pose proof (digits_nonempty s). split; [reflexivity|lia].
Qed.

(* ================================================================== *)
(** * The shortest decimal of an integer *)

Section ShortestDecimal.
Open Scope Q_scope.

Lemma Qlt_bool_iff (x y : Q) : Qlt_bool x y = true <-> x < y.
Proof.
  unfold Qlt_bool. rewrite Qlt_alt.
  destruct (x ?= y); split; congruence.
Qed.

Lemma pow2_pos (z : Z) : 0 < 2 ^ z.
Proof. apply Qpower_0_lt. reflexivity. Qed.

Lemma rounds_to_self (m : positive) (e : Z) (v : Q) :
  v == magnitude m e -> rounds_to m e v = true.
Proof.
  intros Hv. unfold rounds_to.
  set (ce := canonical_exponent m e).
  pose proof (pow2_pos (ce - 1)) as Ha.
  pose proof (pow2_pos (ce - 2)) as Hb.
  destruct (is_power_of_2 m && (emin prec emax <? ce)%Z);
    destruct (Z.even _); apply andb_true_intro; split;
    first [apply Qle_bool_iff | apply Qlt_bool_iff]; rewrite Hv; lra.
Qed.

Lemma rounds_to_le (m : positive) (e : Z) (v : Q) :
  rounds_to m e v = true ->
  v <= magnitude m e + 2 ^ (canonical_exponent m e - 1).
Proof.
  unfold rounds_to.
  destruct (Z.even _); intros H; apply andb_prop in H as [_ H].
  - apply Qle_bool_iff in H. exact H.
  - apply Qlt_bool_iff in H. apply Qlt_le_weak. exact H.
Qed.

(** A candidate comes with the exponent it was asked for, or with the next
    one when it is the power of ten above. *)
Lemma candidate_exponent (m : positive) (e n k : Z) (s n' : Z) :
  candidate m e n k = Some (s, n') ->
  n' = n \/
  (n' = (n + 1)%Z /\ rounds_to m e (inject_Z (10 ^ k) * 10 ^ (n - k)) = true).
Proof.
  unfold candidate.
  set (x := magnitude m e). set (scale := 10 ^ (n - k)).
  set (s0 := Qfloor (x / scale)).
  destruct (Z.eqb_spec (s0 + 1) (10 ^ k)) as [Hc|Hc].
  - rewrite <- Hc.
    destruct (rounds_to m e (inject_Z s0 * scale));
      destruct (rounds_to m e (inject_Z (s0 + 1) * scale)) eqn:H2;
      try discriminate;
      try destruct (_ ?= _); try destruct (Z.even s0);
      intros [= <- <-]; auto.
  - destruct (rounds_to m e (inject_Z s0 * scale));
      destruct (rounds_to m e (inject_Z (s0 + 1) * scale));
      try discriminate;
      try destruct (_ ?= _); try destruct (Z.even s0);
      intros [= <- <-]; auto.
Qed.

(** For an integer, the decimal of as many digits as it has is the integer
    itself. *)
Lemma candidate_exact (m : positive) (e n : Z) (X : Z) :
  magnitude m e == inject_Z X -> candidate m e n n <> None.
Proof.
  intros Hx. unfold candidate.
  rewrite Z.sub_diag.
  assert (Hs : Qfloor (magnitude m e / 10 ^ 0) = X).
  { rewrite <- (Qfloor_Z X). apply Qfloor_comp. rewrite Hx.
    change (10 ^ 0) with 1. field. }
  rewrite Hs.
  rewrite (rounds_to_self m e (inject_Z X * 10 ^ 0)).
  - destruct (rounds_to m e _); [destruct (_ ?= _)|];
      try destruct (Z.even X); try destruct (_ =? _)%Z; discriminate.
  - rewrite Hx. change (10 ^ 0) with 1. ring.
Qed.

Lemma shortest_finds (m : positive) (e n : Z) (k1 : Z) :
  candidate m e n k1 <> None ->
  forall (fuel : nat) (k : Z),
    (k <= k1 < k + Z.of_nat fuel)%Z ->
    exists k' s n',
      (k <= k' <= k1)%Z /\
      candidate m e n k' = Some (s, n') /\
      shortest fuel m e n k = (s, k', n').
Proof.
  intros Hk1. induction fuel as [|fuel IH]; intros k Hk; [lia|].
  cbn [shortest].
  destruct (candidate m e n k) as [[s n']|] eqn:Hc.
  - exists k, s, n'. repeat split; try lia. exact Hc.
  - assert (k <> k1) by congruence.
    destruct (IH (k + 1)%Z) as (k' & s & n' & Hk' & Hc' & Hs); [lia|].
    exists k', s, n'. repeat split; try lia; assumption.
Qed.

(** Half a unit in the last place above an integer below [10^21] that is a
    binary64 number is still below [10^21]. *)
Lemma above_lt_1e21 (X ce : Z) :
  (X < 10 ^ 21)%Z ->
  (ce <= 0 \/ (ce <= 21 /\ (2 ^ ce | X)))%Z ->
  inject_Z X + 2 ^ (ce - 1) < inject_Z (10 ^ 21).
Proof.
  intros HX Hce.
  destruct (Z.le_gt_cases ce 0) as [Hle|Hgt].
  - assert (H : 2 ^ (ce - 1) <= 2 ^ (-1)).
    { apply Qpower_le_compat_l; [lia|]. discriminate. }
    change (2 ^ (-1)) with (1 # 2) in H.
    assert (H1 : inject_Z X + 1 <= inject_Z (10 ^ 21)).
    { change 1 with (inject_Z 1). rewrite <- inject_Z_plus.
      rewrite <- Zle_Qle. lia. }
    lra.
  - destruct Hce as [Hce|[Hce [j Hj]]]; [lia|].
    assert (H : 2 ^ (ce - 1) < 2 ^ ce).
    { apply Qpower_lt_compat_l; [lia|]. reflexivity. }
    assert (H2 : 2 ^ ce == inject_Z (2 ^ ce)).
    { rewrite Zpower_Qpower by lia. reflexivity. }
    assert (H1 : inject_Z X + inject_Z (2 ^ ce) <= inject_Z (10 ^ 21)).
    { rewrite <- inject_Z_plus. rewrite <- Zle_Qle.
      assert (Hd : (2 ^ ce | 10 ^ 21)%Z).
      { exists (2 ^ (21 - ce) * 5 ^ 21)%Z.
        replace (2 ^ (21 - ce) * 5 ^ 21 * 2 ^ ce)%Z
          with (2 ^ ((21 - ce) + ce) * 5 ^ 21)%Z.
        - replace (21 - ce + ce)%Z with 21%Z by lia. reflexivity.
        - rewrite Z.pow_add_r by lia. ring. }
      destruct Hd as [j' Hj'].
      assert (Hp : (0 < 2 ^ ce)%Z) by (apply Z.pow_pos_nonneg; lia).
      rewrite Hj' in HX |- *. rewrite Hj in HX |- *.
      revert Hp HX.
      clear H H2 Hj Hj'.
      generalize dependent (2 ^ ce)%Z. intros P HP HX.
      assert (j < j')%Z by nia. nia. }
    rewrite <- H2 in H1. lra.
Qed.

Lemma pow10_split (k n : Z) :
  (0 <= k)%Z -> inject_Z (10 ^ k) * 10 ^ (n - k) == 10 ^ n.
Proof.
  intros Hk. rewrite Zpower_Qpower by exact Hk.
  change (inject_Z 10) with 10.
  rewrite <- Qpower_plus by discriminate.
  replace (k + (n - k))%Z with n by lia. reflexivity.
Qed.

(** [Number::toString] of an integer below [10^21]: digits, and nothing
    else. *)
Lemma Number_toString_integer (m : positive) (e : Z) (X : Z) :
  magnitude m e == inject_Z X ->
  (1 <= X < 10 ^ 21)%Z ->
  (canonical_exponent m e <= 0 \/
   (canonical_exponent m e <= 21 /\ (2 ^ canonical_exponent m e | X)))%Z ->
  all_digits (Number_toString (S754_finite false m e)) = true /\
  (1 <= String.length (Number_toString (S754_finite false m e)))%nat.
Proof.
  intros Hx HX Hce. cbn [Number_toString].
  set (n := decimal_exponent (magnitude m e)).
  assert (Hn : (1 <= n <= 21)%Z).
  { subst n. unfold decimal_exponent.
    assert (H1 : Qle_bool 1 (magnitude m e) = true).
    { apply Qle_bool_iff. rewrite Hx. change 1 with (inject_Z 1).
      rewrite <- Zle_Qle. lia. }
    rewrite H1.
    rewrite (Qfloor_comp _ _ Hx), Qfloor_Z.
    apply (ndigits_le X 21%nat); [lia|]. apply HX. }
  destruct (shortest_finds m e n n (candidate_exact m e n X Hx) 21 1%Z)
    as (k & s & n' & Hk & Hc & ->); [lia|].
  apply layout_integer.
  destruct (candidate_exponent _ _ _ _ _ _ Hc) as [->|[-> Hr]]; [lia|].
  split; [lia|].
  destruct (Z.eq_dec n 21) as [Hn21|]; [|lia].
  apply rounds_to_le in Hr.
  rewrite pow10_split in Hr by lia.
  pose proof (above_lt_1e21 X (canonical_exponent m e) (proj2 HX) Hce) as Hlt.
  rewrite Hx, Hn21 in Hr.
  rewrite Zpower_Qpower in Hlt by lia. change (inject_Z 10) with 10 in Hlt.
  lra.
Qed.

End ShortestDecimal.

(* ================================================================== *)
(** * Significands of rounded results *)

Lemma digits2_pos_bounds (p : positive) :
  2 ^ (Zpos (digits2_pos p) - 1) <= Zpos p < 2 ^ Zpos (digits2_pos p).
Proof.
  induction p as [p IH|p IH|]; cbn [digits2_pos]; [| |cbn; lia];
    rewrite Pos2Z.inj_succ;
    replace (Z.succ (Zpos (digits2_pos p)) - 1)
      with (Z.succ (Zpos (digits2_pos p) - 1)) by lia;
    rewrite !Z.pow_succ_r by lia; lia.
Qed.

Lemma digits2_pos_le (p : positive) (k : Z) :
  Zpos p < 2 ^ k -> Zpos (digits2_pos p) <= k.
Proof.
  intros Hp. destruct (digits2_pos_bounds p) as [Hlo _].
  destruct (Z.le_gt_cases (Zpos (digits2_pos p)) k) as [|Hgt]; [assumption|].
  assert (2 ^ k <= 2 ^ (Zpos (digits2_pos p) - 1))
    by (apply Z.pow_le_mono_r; lia).
  lia.
Qed.

Lemma Zdigits2_bound (m : Z) : 0 <= m -> 0 <= Zdigits2 m /\ m < 2 ^ Zdigits2 m.
Proof.
  destruct m as [|p|p]; cbn; try lia.
  intros _. split; [lia|]. apply digits2_pos_bounds.
Qed.

Lemma shr_m_shr_1 (r : shr_record) :
  0 <= shr_m r -> shr_m (shr_1 r) = shr_m r / 2.
Proof.
  destruct r as [m r s]. cbn [shr_m]. intros Hm.
  rewrite <- Z.div2_div.
  destruct m as [|[p|p|]|p]; try reflexivity. lia.
Qed.

Lemma shr_m_iter_pos (p : positive) (r : shr_record) :
  0 <= shr_m r -> shr_m (iter_pos shr_1 p r) = shr_m r / 2 ^ Zpos p.
Proof.
  revert r. induction p as [p IH|p IH|]; intros r Hr; cbn [iter_pos].
  - assert (H1 : 0 <= shr_m (shr_1 r)).
    { rewrite shr_m_shr_1 by exact Hr. apply Z.div_pos; lia. }
    assert (H2 : 0 <= shr_m (iter_pos shr_1 p (shr_1 r))).
    { rewrite IH by exact H1. apply Z.div_pos; [lia|].
      apply Z.pow_pos_nonneg; lia. }
    rewrite IH by exact H2. rewrite IH by exact H1.
    rewrite shr_m_shr_1 by exact Hr.
    rewrite !Z.div_div by (try apply Z.pow_pos_nonneg; lia).
    f_equal. change 2 with (2 ^ 1) at 1.
    rewrite <- !Z.pow_add_r by lia. f_equal. lia.
  - assert (H2 : 0 <= shr_m (iter_pos shr_1 p r)).
    { rewrite IH by exact Hr. apply Z.div_pos; [lia|].
      apply Z.pow_pos_nonneg; lia. }
    rewrite IH by exact H2. rewrite IH by exact Hr.
    rewrite !Z.div_div by (try apply Z.pow_pos_nonneg; lia).
    f_equal. rewrite <- Z.pow_add_r by lia. f_equal. lia.
  - rewrite shr_m_shr_1 by exact Hr. reflexivity.
Qed.

Lemma shr_m_shr_record_of_loc (m : Z) (l : location) :
  shr_m (shr_record_of_loc m l) = m.
Proof. destruct l as [|[]]; reflexivity. Qed.

(** [shr_fexp] leaves at most [prec] bits. *)
Lemma shr_fexp_bound (m e : Z) (l : location) :
  0 <= m ->
  0 <= shr_m (fst (shr_fexp prec emax m e l)) < 2 ^ 53.
Proof.
  intros Hm. destruct (Zdigits2_bound m Hm) as [Hd Hlt].
  unfold shr_fexp, shr, fexp, SpecFloat.emin, prec, emax.
  set (d := Zdigits2 m) in *.
  destruct (Z.max (d + e - 53) (3 - 1024 - 53) - e) as [|n|n] eqn:Hn;
    cbn [fst].
  - rewrite shr_m_shr_record_of_loc. split; [exact Hm|].
    assert (2 ^ d <= 2 ^ 53) by (apply Z.pow_le_mono_r; lia). lia.
  - rewrite shr_m_iter_pos by (rewrite shr_m_shr_record_of_loc; exact Hm).
    rewrite shr_m_shr_record_of_loc.
    assert (Hp : 0 < 2 ^ Zpos n) by (apply Z.pow_pos_nonneg; lia).
    split; [apply Z.div_pos; lia|].
    apply Z.div_lt_upper_bound; [exact Hp|].
    rewrite <- Z.pow_add_r by lia.
    assert (2 ^ d <= 2 ^ (Zpos n + 53)) by (apply Z.pow_le_mono_r; lia).
    lia.
  - rewrite shr_m_shr_record_of_loc. split; [exact Hm|].
    assert (2 ^ d <= 2 ^ 53) by (apply Z.pow_le_mono_r; lia). lia.
Qed.

Lemma round_nearest_even_nonneg (m : Z) (l : location) :
  0 <= m -> 0 <= round_nearest_even m l.
Proof.
  intros Hm. destruct l as [|[]]; cbn; try lia.
  destruct (Z.even m); lia.
Qed.

Lemma binary_round_aux_rounded (sx : bool) (mz ez : Z) (lz : location) :
  0 <= mz -> rounded sx (binary_round_aux prec emax sx mz ez lz).
Proof.
  intros Hmz. unfold binary_round_aux.
  pose proof (shr_fexp_bound mz ez lz Hmz) as H1.
  destruct (shr_fexp prec emax mz ez lz) as [mrs' e']. cbn [fst] in H1.
  pose proof (shr_fexp_bound
                (round_nearest_even (shr_m mrs') (loc_of_shr_record mrs'))
                e' loc_Exact
                (round_nearest_even_nonneg _ _ (proj1 H1))) as H2.
  destruct (shr_fexp prec emax _ e' loc_Exact) as [mrs'' e'']. cbn [fst] in H2.
  destruct (shr_m mrs'') as [|m|m]; [reflexivity| |exact I].
  destruct (e'' <=? emax - prec); cbn [rounded]; [|reflexivity].
  split; [reflexivity|lia].
Qed.

Lemma num_div_rounded (m : positive) (e : Z) (my : positive) (ey : Z) :
  rounded false (num_div (S754_finite false m e) (S754_finite false my ey)).
Proof.
  unfold num_div, SFdiv, SFdiv_core_binary.
  set (e' := Z.min _ _). set (m' := match _ with Z0 => _ | _ => _ end).
  assert (Hm' : 0 <= m').
  { subst m'. destruct (e - ey - e'); try lia. apply Z.shiftl_nonneg. lia. }
  pose proof (Z.div_pos m' (Zpos my) Hm' ltac:(lia)) as Hq.
  unfold Z.div in Hq.
  destruct (Z.div_eucl m' (Zpos my)) as [q r].
  apply binary_round_aux_rounded. exact Hq.
Qed.

(* ================================================================== *)
(** * The minutes field *)

Lemma magnitude_integer (m : positive) (e : Z) :
  0 <= e -> (magnitude m e == inject_Z (Zpos m * 2 ^ e))%Q.
Proof.
  intros He. unfold magnitude.
  rewrite inject_Z_mult, Zpower_Qpower by exact He. reflexivity.
Qed.

(** The floor of a number with a fraction is below [2^53] and is laid out
    with its own exponent. *)
Lemma normalize_integer (n : positive) :
  Zpos n < 2 ^ 53 ->
  exists m' e',
    normalize false n 0 = S754_finite false m' e' /\
    (magnitude m' e' == inject_Z (Zpos n))%Q /\
    canonical_exponent m' e' <= 0.
Proof.
  intros Hn. unfold normalize.
  pose proof (digits2_pos_le n 53 Hn) as Hd.
  set (ce := Z.max (Zpos (digits2_pos n) + 0 - prec) (emin prec emax)).
  assert (Hce : ce <= 0) by (subst ce; unfold prec, emax, emin; lia).
  assert (Hce' : -1074 <= ce) by (subst ce; unfold prec, emax, emin; lia).
  apply Z.leb_le in Hce as Hb. rewrite Hb.
  assert (Hp : 0 < 2 ^ (0 - ce)) by (apply Z.pow_pos_nonneg; lia).
  assert (Hm : Zpos (Z.to_pos (Zpos n * 2 ^ (0 - ce))) = Zpos n * 2 ^ (0 - ce))
    by (apply Z2Pos.id; lia).
  eexists _, _. split; [reflexivity|]. split.
  - unfold magnitude. rewrite Hm, inject_Z_mult, Zpower_Qpower by lia.
    change (inject_Z 2) with 2%Q.
    rewrite <- Qmult_assoc, <- Qpower_plus by discriminate.
    replace (0 - ce + ce) with 0 by lia. change (2 ^ 0)%Q with 1%Q. ring.
  - unfold canonical_exponent, prec, emax, emin.
    assert (Zpos (digits2_pos (Z.to_pos (Zpos n * 2 ^ (0 - ce)))) <= 53 - ce).
    { apply digits2_pos_le. rewrite Hm.
      replace (53 - ce) with (53 + (0 - ce)) by lia.
      rewrite Z.pow_add_r by lia. nia. }
    lia.
Qed.

Lemma pow2_53 : 2 ^ 53 = 9007199254740992.
Proof. vm_compute. reflexivity. Qed.

Lemma pow10_21 : 10 ^ 21 = 1000000000000000000000.
Proof. vm_compute. reflexivity. Qed.

Lemma SFltb_1e21 (m : positive) (e : Z) :
  Zpos m < 2 ^ 53 -> 0 <= e ->
  SFltb (S754_finite false m e) num_1e21 = true ->
  Zpos m * 2 ^ e < 10 ^ 21.
Proof.
  rewrite pow2_53, pow10_21. intros Hm He.
  unfold SFltb, SFcompare, num_1e21.
  destruct (Z.compare_spec e 17) as [->|Hlt|Hgt]; try discriminate.
  - destruct (PosDef.Pos.compare_cont Eq m 7629394531250000) eqn:Hc;
      try discriminate.
    intros _.
    assert (Hlt : (m < 7629394531250000)%positive) by exact Hc.
    apply Pos2Z.pos_lt_pos in Hlt.
    replace (2 ^ 17) with 131072 by (vm_compute; reflexivity). lia.
  - intros _.
    assert (H16 : 2 ^ e <= 2 ^ 16) by (apply Z.pow_le_mono_r; lia).
    replace (2 ^ 16) with 65536 in H16 by (vm_compute; reflexivity).
    assert (Hp : 0 < 2 ^ e) by (apply Z.pow_pos_nonneg; lia).
    assert (Zpos m * 2 ^ e <= Zpos m * 65536)
      by (apply Z.mul_le_mono_nonneg_l; lia).
    lia.
Qed.

Lemma pow10_21_lt_pow2_70 : 10 ^ 21 < 2 ^ 70.
Proof. vm_compute. reflexivity. Qed.

Lemma pow2_53_lt_pow10_21 : 2 ^ 53 < 10 ^ 21.
Proof. vm_compute. reflexivity. Qed.

(** A binary64 integer [m * 2^e] below [10^21] is a multiple of the
    power of two its exponent stands for. *)
Lemma canonical_exponent_integer (m : positive) (e : Z) :
  Zpos m < 2 ^ 53 -> 0 <= e -> Zpos m * 2 ^ e < 10 ^ 21 ->
  canonical_exponent m e <= 0 \/
  (canonical_exponent m e <= 21 /\
   (2 ^ canonical_exponent m e | Zpos m * 2 ^ e)).
Proof.
  intros Hm He HX.
  unfold canonical_exponent, prec, emax, emin.
  pose proof (digits2_pos_le m 53 Hm) as Hd.
  destruct (digits2_pos_bounds m) as [Hlo _].
  set (d := Zpos (digits2_pos m)) in *.
  assert (Hd1 : 1 <= d) by (subst d; lia).
  destruct (Z.le_gt_cases (d + e - 53) 0) as [|Hpos]; [left; lia|right].
  rewrite Z.max_l by lia. split.
  - assert (Hpe : 0 < 2 ^ e) by (apply Z.pow_pos_nonneg; lia).
    assert (H70 : 2 ^ (d - 1 + e) < 2 ^ 70).
    { rewrite Z.pow_add_r by lia.
      apply Z.le_lt_trans with (Zpos m * 2 ^ e).
      - apply Z.mul_le_mono_nonneg_r; lia.
      - apply Z.lt_trans with (10 ^ 21);
          [exact HX|exact pow10_21_lt_pow2_70]. }
    apply Z.pow_lt_mono_r_iff in H70; lia.
  - exists (Zpos m * 2 ^ (53 - d)).
    rewrite <- Z.mul_assoc, <- Z.pow_add_r by lia.
    do 2 f_equal. lia.
Qed.

Lemma minutes_digits (q : number) :
  rounded false q ->
  num_lt (Math_floor q) num_1e21 = true ->
  all_digits (Number_toString (Math_floor q)) = true /\
  (1 <= String.length (Number_toString (Math_floor q)))%nat.
Proof.
  destruct q as [s|s| |s m e]; cbn [rounded Math_floor].
  - intros _ _. split; [reflexivity|cbn; lia].
  - intros -> H. discriminate H.
  - intros _ H. discriminate H.
  - intros [-> Hm].
    destruct (Z.leb_spec 0 e) as [He|He].
    + intros Hlt. pose proof (SFltb_1e21 m e Hm He Hlt) as HX.
      assert (Hpe : 0 < 2 ^ e) by (apply Z.pow_pos_nonneg; lia).
      assert (H1 : 0 < Zpos m * 2 ^ e) by (apply Z.mul_pos_pos; lia).
      apply (Number_toString_integer m e (Zpos m * 2 ^ e)).
      * apply magnitude_integer. exact He.
      * split; [lia|exact HX].
      * apply canonical_exponent_integer; assumption.
    + cbn [andb]. intros _.
      assert (Hp : 0 < 2 ^ (- e)) by (apply Z.pow_pos_nonneg; lia).
      assert (Hq : 0 <= Zpos m / 2 ^ (- e) <= Zpos m).
      { split; [apply Z.div_pos; lia|].
        apply Z.div_le_upper_bound; [lia|].
        rewrite <- (Z.mul_1_l (Zpos m)) at 1.
        apply Z.mul_le_mono_nonneg_r; lia. }
      destruct (Zpos m / 2 ^ (- e)) as [|n|n] eqn:Hn; [| |lia].
      * split; [reflexivity|cbn; lia].
      * destruct (normalize_integer n) as (m' & e' & -> & Hmag & Hce); [lia|].
        apply (Number_toString_integer m' e' (Zpos n) Hmag).
        -- pose proof pow2_53_lt_pow10_21. lia.
        -- left. exact Hce.
Qed.

(* ================================================================== *)
(** * The seconds field *)

Lemma normalize_below_60 (r : positive) (g : Z) :
  g < 0 -> Zpos r < 60 * 2 ^ (- g) -> below_60 (normalize false r g).
Proof.
  intros Hg Hr. unfold normalize, below_60.
  assert (Hd : Zpos (digits2_pos r) <= 6 - g).
  { apply digits2_pos_le. replace (6 - g) with (6 + - g) by lia.
    rewrite Z.pow_add_r by lia.
    assert (0 < 2 ^ (- g)) by (apply Z.pow_pos_nonneg; lia).
    replace (2 ^ 6) with 64 by reflexivity. lia. }
  set (ce := Z.max (Zpos (digits2_pos r) + g - prec) (emin prec emax)).
  assert (Hce : -1074 <= ce < 0) by (subst ce; unfold prec, emax, emin; lia).
  destruct (Z.leb_spec ce g) as [Hle|Hgt].
  - assert (Hp : 0 < 2 ^ (g - ce)) by (apply Z.pow_pos_nonneg; lia).
    eexists _, _. split; [reflexivity|]. split; [lia|].
    rewrite Z2Pos.id by (apply Z.mul_pos_pos; lia).
    replace (- ce) with (- g + (g - ce)) by lia.
    rewrite Z.pow_add_r, Z.mul_assoc by lia.
    apply Z.mul_lt_mono_pos_r; assumption.
  - assert (Hp : 0 < 2 ^ (ce - g)) by (apply Z.pow_pos_nonneg; lia).
    assert (Hp' : 0 < 2 ^ (- ce)) by (apply Z.pow_pos_nonneg; lia).
    destruct (Zpos r mod 2 ^ (ce - g) =? 0).
    + eexists _, _. split; [reflexivity|]. split; [lia|].
      assert (Hq : Zpos r / 2 ^ (ce - g) < 60 * 2 ^ (- ce)).
      { apply Z.div_lt_upper_bound; [exact Hp|].
        replace (2 ^ (ce - g) * (60 * 2 ^ (- ce)))
          with (60 * (2 ^ (- ce) * 2 ^ (ce - g))) by ring.
        rewrite <- Z.pow_add_r by lia.
        replace (- ce + (ce - g)) with (- g) by lia. exact Hr. }
      destruct (Zpos r / 2 ^ (ce - g)) as [|q|q]; cbn [Z.to_pos]; lia.
    + eexists _, _. split; [reflexivity|]. split; [lia|exact Hr].
Qed.

Lemma num_rem_60 (m : positive) (e : Z) :
  num_rem (S754_finite false m e) num_60 = S754_zero false \/
  below_60 (num_rem (S754_finite false m e) num_60).
Proof.
  unfold num_rem, num_60. cbv beta iota.
  set (g := Z.min e (-47)).
  assert (Hg : g <= -47) by (subst g; lia).
  set (B := 8444249301319680 * 2 ^ (-47 - g)).
  assert (HB : B = 60 * 2 ^ (- g)).
  { subst B. replace 8444249301319680 with (60 * 2 ^ 47)
      by (vm_compute; reflexivity).
    rewrite <- Z.mul_assoc, <- Z.pow_add_r by lia.
    do 2 f_equal. lia. }
  assert (HBpos : 0 < B).
  { rewrite HB. assert (0 < 2 ^ (- g)) by (apply Z.pow_pos_nonneg; lia). lia. }
  pose proof (Z.mod_pos_bound (Zpos m * 2 ^ (e - g)) B HBpos) as Hr.
  destruct ((Zpos m * 2 ^ (e - g)) mod B) as [|r|r]; [left; reflexivity| |lia].
  right. apply normalize_below_60; [lia|]. rewrite <- HB. apply Hr.
Qed.

Lemma Math_floor_below_60 (x : number) :
  below_60 x ->
  Math_floor x = S754_zero false \/
  exists n, (1 <= Pos.to_nat n <= 59)%nat /\ Math_floor x = normalize false n 0.
Proof.
  intros (m & e & -> & He & Hm). unfold Math_floor.
  destruct (Z.leb_spec 0 e) as [|_]; [lia|]. cbn [andb].
  assert (Hp : 0 < 2 ^ (- e)) by (apply Z.pow_pos_nonneg; lia).
  assert (Hq : 0 <= Zpos m / 2 ^ (- e) < 60).
  { split; [apply Z.div_pos; lia|].
    apply Z.div_lt_upper_bound; [exact Hp|]. lia. }
  destruct (Zpos m / 2 ^ (- e)) as [|n|n]; [left; reflexivity| |lia].
  right. exists n. split; [lia|reflexivity].
Qed.

Lemma seconds_table :
  forallb (fun k => is_seconds
                      (padStart (Number_toString
                                   (normalize false (Pos.of_nat k) 0)) 2 "0"))
          (seq 1 59) = true.
Proof. vm_compute. reflexivity. Qed.

Lemma seconds_field (m : positive) (e : Z) :
  is_seconds
    (padStart (Number_toString
                 (Math_floor (num_rem (S754_finite false m e) num_60))) 2 "0")
  = true.
Proof.
  destruct (num_rem_60 m e) as [->|Hb]; [reflexivity|].
  destruct (Math_floor_below_60 _ Hb) as [->|(n & Hn & ->)]; [reflexivity|].
  pose proof seconds_table as Ht. rewrite forallb_forall in Ht.
  specialize (Ht (Pos.to_nat n)). rewrite Pos2Nat.id in Ht.
  apply Ht. apply in_seq. lia.
Qed.

(* ================================================================== *)
(** * [_formatTime] *)

(** The runtime functions on some values: fractions, the first exponent
    form, the largest and the smallest numbers, and negative operands. *)
Example Number_toString_examples :
  map Number_toString
      [num_0_5; num_div num_1 (num_of_Z 3); num_of_Z 123;
       num_of_Z (2 ^ 53 + 2); num_of_Z (10 ^ 21 - 65536 - 1); num_1e21;
       S754_finite false 1 (-1074);
       S754_finite false 9007199254740991 971;
       SFopp (num_div (num_of_Z 7) num_2)]
  = ["0.5"; "0.3333333333333333"; "123";
     "9007199254740994"; "999999999999999900000"; "1e+21";
     "5e-324"; "1.7976931348623157e+308"; "-3.5"]%string.
Proof. vm_compute. reflexivity. Qed.

Example formatTime_examples :
  map _formatTime
      [num_of_Z 59; num_of_Z 3599; num_div (num_of_Z 123456) num_1000;
       SFopp (num_of_Z 65); S754_infinity false; S754_nan]
  = ["00:59"; "59:59"; "02:03"; "-2:-5"; "Infinity:NaN"; "NaN:NaN"]%string.
Proof. vm_compute. reflexivity. Qed.

(** C7, as amended.  For every duration [d >= 0] whose minute count
    [Math.floor(d / 60)] is below [1e21], [_formatTime d] is two or more
    digits, a colon, a digit up to 5 and a digit; [_formatTime] of 0, 65 and
    3600 is 00:00, 01:05 and 60:00; and the time text of an [Unloaded]
    view-state is the literal 00:00 / 00:00. *)
Theorem formatTime_matches_MMSS :
  (forall d : number,
      num_ge d num_0 = true ->
      num_lt (Math_floor (num_div d num_60)) num_1e21 = true ->
      matches_MMSS (_formatTime d) = true) /\
  _formatTime num_0 = "00:00"%string /\
  _formatTime (num_of_Z 65) = "01:05"%string /\
  _formatTime (num_of_Z 3600) = "60:00"%string /\
  (forall props err,
      timeText (AudioPlayer props err Unloaded) = "00:00 / 00:00"%string).
Proof.
  split; [|repeat split; vm_compute; reflexivity].
  intros d Hge Hlt.
  destruct d as [s|s| |s m e].
  - destruct s; vm_compute; reflexivity.
  - destruct s; [discriminate Hge|discriminate Hlt].
  - discriminate Hge.
  - destruct s; [discriminate Hge|].
    unfold _formatTime. apply matches_MMSS_fields.
    + apply padStart_field;
        apply (minutes_digits _ (num_div_rounded m e _ _) Hlt).
    + apply seconds_field.
Qed.

Lemma formatTime_matches_MMSS_witness :
  num_ge (num_of_Z 65) num_0 = true /\
  num_lt (Math_floor (num_div (num_of_Z 65) num_60)) num_1e21 = true /\
  matches_MMSS (_formatTime (num_of_Z 65)) = true.
Proof.
  split; [vm_compute; reflexivity|].
  split; [vm_compute; reflexivity|].
  apply (proj1 formatTime_matches_MMSS (num_of_Z 65));
    vm_compute; reflexivity.
Defined.

(** C7, as stated, fails: the duration [6e22] is not negative, its minute
    count is [1e21], which [Number::toString] writes with an exponent, and
    the result does not match the pattern. *)
Lemma formatTime_6e22_does_not_match :
  num_ge (num_of_Z (6 * 10 ^ 22)) num_0 = true /\
  _formatTime (num_of_Z (6 * 10 ^ 22)) = "1e+21:00"%string /\
  matches_MMSS (_formatTime (num_of_Z (6 * 10 ^ 22))) = false.
Proof. repeat split; vm_compute; reflexivity. Qed.

(* ================================================================== *)
(** * The life of a sound in the host *)

Lemma calls_on_app cs cs' s :
  calls_on (cs ++ cs') s = calls_on cs s ++ calls_on cs' s.
Proof. apply filter_app. Qed.

Lemma calls_on_effect_calls n props s :
  calls_on (effect_calls n props) s
  = if Nat.eqb n s then effect_calls n props else [].
Proof. unfold calls_on. cbn. destruct (Nat.eqb n s); reflexivity. Qed.

Lemma calls_on_cleanup_calls s0 s :
  calls_on (cleanup_calls s0) s
  = if Nat.eqb s0 s then cleanup_calls s0 else [].
Proof. unfold calls_on. cbn. destruct (Nat.eqb s0 s); reflexivity. Qed.

(** A control calls the sound of the captured view-state, and no other. *)
Lemma handler_calls_on (c : Control) (pb : PlaybackState) (w : World) :
  exists cs,
    exec (handler c pb) w = with_calls w cs /\
    forallb is_control_call cs = true /\
    forall s, calls_on cs s
              = match pb with
                | Loaded p => if Nat.eqb (sound p) s then cs else []
                | Unloaded => []
                end.
Proof.
  assert (Hnil : w = with_calls w []).
  { destruct w. unfold with_calls. cbn. rewrite app_nil_r. reflexivity. }
  destruct pb as [|p].
  - exists []. split; [destruct c; exact Hnil|]. split; reflexivity.
  - assert (H1 : forall x, exists cs,
                 exec (call (sound p) x) w = with_calls w cs /\
                 (is_control_call (sound p, x) = true ->
                  forallb is_control_call cs = true) /\
                 forall s, calls_on cs s
                           = if Nat.eqb (sound p) s then cs else []).
    { intros x. exists [(sound p, x)]. split; [reflexivity|].
      split; [intros H; cbn [forallb]; rewrite H; reflexivity|].
      intros s. unfold calls_on. cbn. destruct (Nat.eqb (sound p) s); reflexivity. }
    destruct c; cbn [handler onPress_PlayPause onPress_Repeat onPress_Slower
                       onPress_Faster onPress_CorrectPitch onPress_Mute].
    + destruct (isPlaying p); [|destruct (num_lt _ _)];
        match goal with |- context [call _ ?x] =>
          destruct (H1 x) as (cs & He & Hc & Hs) end;
        exists cs; (split; [exact He|]); (split; [apply Hc; reflexivity|exact Hs]).
    + match goal with |- context [call _ ?x] =>
        destruct (H1 x) as (cs & He & Hc & Hs) end;
        exists cs; (split; [exact He|]); (split; [apply Hc; reflexivity|exact Hs]).
    + match goal with |- context [call _ ?x] =>
        destruct (H1 x) as (cs & He & Hc & Hs) end;
        exists cs; (split; [exact He|]); (split; [apply Hc; reflexivity|exact Hs]).
    + match goal with |- context [call _ ?x] =>
        destruct (H1 x) as (cs & He & Hc & Hs) end;
        exists cs; (split; [exact He|]); (split; [apply Hc; reflexivity|exact Hs]).
    + match goal with |- context [call _ ?x] =>
        destruct (H1 x) as (cs & He & Hc & Hs) end;
        exists cs; (split; [exact He|]); (split; [apply Hc; reflexivity|exact Hs]).
    + match goal with |- context [call _ ?x] =>
        destruct (H1 x) as (cs & He & Hc & Hs) end;
        exists cs; (split; [exact He|]); (split; [apply Hc; reflexivity|exact Hs]).
Qed.

Ltac calls_simpl :=
  cbn [world mounted calls created error playback fst snd];
  rewrite ?calls_on_app, ?calls_on_effect_calls, ?calls_on_cleanup_calls.

(** Mounting on top of a host state in which no sound is held. *)
Lemma follows_protocol_mount (w : World) (props : Props) :
  (forall s,
      ((created w <= s)%nat -> calls_on (calls w) s = []) /\
      ((s < created w)%nat ->
       exists props_s ctl,
         forallb is_control_call ctl = true /\
         calls_on (calls w) s
         = effect_calls s props_s ++ ctl ++ cleanup_calls s)) ->
  forall e,
    follows_protocol
      {| world := {| error := e; playback := Unloaded;
                     calls := calls w ++ effect_calls (created w) props;
                     created := S (created w) |};
         mounted := Some (props, created w) |}.
Proof.
  intros Hw e. split; [discriminate|].
  intros s. destruct (Hw s) as (Hnew & Hold).
  unfold held. calls_simpl.
  destruct (Nat.eqb_spec (created w) s) as [<-|Hne].
  - split; [lia|]. intros _. exists props, [].
    split; [reflexivity|]. rewrite Hnew by lia.
    split; [reflexivity|]. intros _. exists props. split; reflexivity.
  - split.
    + intros Hs. rewrite Hnew by lia. reflexivity.
    + intros Hs. destruct Hold as (props_s & ctl & Hctl & Hc); [lia|].
      exists props_s, ctl. split; [exact Hctl|].
      rewrite Hc, app_nil_r. split; [reflexivity|discriminate].
Qed.

Lemma follows_protocol_initial : follows_protocol initial_host.
Proof.
  split; [discriminate|]. intros s. cbn. split; [reflexivity|lia].
Qed.

Lemma follows_protocol_step h ev :
  released_once h -> follows_protocol h -> follows_protocol (step h ev).
Proof.
  intros Rel FP. pose proof FP as [Hpb Inv].
  destruct ev as [props| |s0 st|s0 e|c]; unfold step.
  - (* Render *)
    destruct (mounted h) as [[props0 s0]|] eqn:Hm.
    + destruct (String.eqb_spec (source_uri props0) (source_uri props))
        as [Huri|Huri].
      * split.
        -- intros p Hp. specialize (Hpb p Hp). unfold held in *.
           rewrite Hm in Hpb. exact Hpb.
        -- intros s. destruct (Inv s) as (Hnew & Hold).
           unfold held in *. rewrite Hm in Hold. cbn [world mounted].
           split; [exact Hnew|]. intros Hs.
           destruct (Hold Hs) as (props_s & ctl & Hctl & Hc & Hheld).
           exists props_s, ctl. split; [exact Hctl|]. split; [exact Hc|].
           intros Hh. destruct (Hheld Hh) as (p' & [= <- <-] & Hu).
           exists props. split; [reflexivity|]. congruence.
      * unfold bind. rewrite cleanup_eq, effect_eq.
        cbn [world mounted calls created error playback fst snd].
        apply (follows_protocol_mount
                 {| error := error (world h); playback := Unloaded;
                    calls := calls (world h) ++ cleanup_calls s0;
                    created := created (world h) |}).
        intros s. destruct (Inv s) as (Hnew & Hold).
        destruct (Rel s0) as (Hrel & _).
        unfold held in *. rewrite Hm in *. rewrite Nat.eqb_refl in Hrel.
        destruct (Hrel eq_refl) as (_ & _ & Hlt0).
        calls_simpl.
        destruct (Nat.eqb_spec s0 s) as [->|Hne].
        -- split; [lia|]. intros Hs.
           destruct (Hold Hs) as (props_s & ctl & Hctl & Hc & _).
           exists props_s, ctl. split; [exact Hctl|].
           rewrite Hc, app_nil_r, <- !app_assoc. reflexivity.
        -- split.
           ++ intros Hs. rewrite Hnew by exact Hs. reflexivity.
           ++ intros Hs.
              destruct (Hold Hs) as (props_s & ctl & Hctl & Hc & _).
              exists props_s, ctl. split; [exact Hctl|].
              rewrite Hc, app_nil_r. reflexivity.
    + rewrite effect_eq.
      cbn [world mounted calls created error playback fst snd].
      apply (follows_protocol_mount
               {| error := initialErrorState; playback := initialPlaybackState;
                  calls := calls (world h);
                  created := created (world h) |}).
      intros s. destruct (Inv s) as (Hnew & Hold).
      unfold held in *. rewrite Hm in *. cbn [calls created].
      split; [exact Hnew|]. intros Hs.
      destruct (Hold Hs) as (props_s & ctl & Hctl & Hc & _).
      exists props_s, ctl. split; [exact Hctl|exact Hc].
  - (* Unmount *)
    destruct (mounted h) as [[props0 s0]|] eqn:Hm; [|exact FP].
    unfold exec. rewrite cleanup_eq.
    split; [discriminate|].
    intros s. destruct (Inv s) as (Hnew & Hold).
    destruct (Rel s0) as (Hrel & _).
    unfold held in *. rewrite Hm in *. rewrite Nat.eqb_refl in Hrel.
    destruct (Hrel eq_refl) as (_ & _ & Hlt0).
    calls_simpl.
    destruct (Nat.eqb_spec s0 s) as [->|Hne].
    + split; [lia|]. intros Hs.
      destruct (Hold Hs) as (props_s & ctl & Hctl & Hc & _).
      exists props_s, ctl. split; [exact Hctl|].
      rewrite Hc, app_nil_r, <- !app_assoc. split; [reflexivity|discriminate].
    + split.
      * intros Hs. rewrite Hnew by exact Hs. reflexivity.
      * intros Hs.
        destruct (Hold Hs) as (props_s & ctl & Hctl & Hc & _).
        exists props_s, ctl. split; [exact Hctl|].
        rewrite Hc, app_nil_r. split; [reflexivity|discriminate].
  - (* StatusUpdate *)
    destruct (subscribed (calls (world h)) s0 false) eqn:Hsub;
      [|exact FP].
    assert (Hheld : held h s0 = true).
    { destruct (held h s0) eqn:Hh; [reflexivity|].
      destruct (Rel s0) as (_ & Hfree).
      destruct (Hfree Hh) as (Hno & _). congruence. }
    split.
    + destruct st; cbn; [discriminate|].
      intros p [= <-]. exact Hheld.
    + intros s. specialize (Inv s). unfold held in *.
      destruct st; exact Inv.
  - (* LoadRejected *)
    destruct (mounted h) as [[props0 s1]|] eqn:Hm; [|exact FP].
    destruct (Nat.ltb s0 (created (world h))).
    + split.
      * intros p Hp. specialize (Hpb p Hp). unfold held in *.
        cbn [mounted]. rewrite Hm in Hpb. exact Hpb.
      * intros s. specialize (Inv s). unfold held in *.
        cbn [world mounted]. rewrite Hm in Inv. exact Inv.
    + exact FP.
  - (* Press *)
    destruct (mounted h) as [[props0 s1]|] eqn:Hm; [|exact FP].
    destruct (button_of_AudioPlayer props0 (error (world h))
                (playback (world h)) c) as (b & -> & Hb).
    unfold press. destruct (enabled b).
    + destruct (handler_calls_on c (playback (world h)) (world h))
        as (cs & Hexec & Hcs & Hon).
      rewrite Hb, Hexec. unfold with_calls. split.
      * intros p Hp. specialize (Hpb p Hp). unfold held in *.
        cbn [mounted]. rewrite Hm in Hpb. exact Hpb.
      * intros s. destruct (Inv s) as (Hnew & Hold).
        destruct (Rel s) as (Hrel & _).
        unfold held in *. rewrite Hm in *. calls_simpl. rewrite Hon.
        destruct (playback (world h)) as [|p] eqn:Hp.
        -- rewrite !app_nil_r. split; assumption.
        -- specialize (Hpb p eq_refl).
           destruct (Nat.eqb_spec (sound p) s) as [<-|Hne];
             [|rewrite !app_nil_r; split; assumption].
           destruct (Hrel Hpb) as (_ & _ & Hlt).
           split; [lia|]. intros _.
           destruct (Hold Hlt) as (props_s & ctl & Hctl & Hc & Hheld).
           exists props_s, (ctl ++ cs). rewrite forallb_app, Hctl, Hcs.
           split; [reflexivity|]. rewrite Hc, Hpb, !app_nil_r, app_assoc.
           split; [reflexivity|]. intros _. exact (Hheld Hpb).
    + split.
      * intros p Hp. specialize (Hpb p Hp). unfold held in *.
        cbn [mounted]. rewrite Hm in Hpb. exact Hpb.
      * intros s. specialize (Inv s). unfold held in *.
        cbn [world mounted]. rewrite Hm in Inv. exact Inv.
Qed.

Lemma follows_protocol_run evs : follows_protocol (run evs).
Proof.
  induction evs as [|ev evs IH] using rev_ind; [exact follows_protocol_initial|].
  rewrite run_snoc. apply follows_protocol_step; [apply released_once_run|exact IH].
Qed.

Lemma unloads_calls_on cs s : unloads (calls_on cs s) s = unloads cs s.
Proof.
  unfold unloads, calls_on.
  induction cs as [|[s' c] cs IH]; [reflexivity|].
  cbn [filter fst]. destruct (Nat.eqb_spec s' s) as [->|Hne].
  - cbn [filter]. destruct (is_unload s (s, c)); cbn [length]; rewrite IH; reflexivity.
  - rewrite IH. cbn [filter]. destruct c; cbn; try reflexivity.
    destruct (Nat.eqb_spec s' s); [contradiction|reflexivity].
Qed.

Lemma unloads_control_effect s props ctl :
  forallb is_control_call ctl = true ->
  unloads (effect_calls s props ++ ctl) s = 0%nat.
Proof.
  intros Hctl. rewrite unloads_app, unloads_effect_calls.
  apply unloads_control_calls. exact Hctl.
Qed.

(** X1.  The view-state never keeps a released sound: the sound of a [Loaded]
    view-state is the one held, on which [unloadAsync] was not called. *)
Theorem loaded_sound_is_held :
  forall (evs : list Event) (p : LoadedPlayback),
    playback (world (run evs)) = Loaded p ->
    held (run evs) (sound p) = true /\
    unloads (calls (world (run evs))) (sound p) = 0%nat /\
    subscribed (calls (world (run evs))) (sound p) false = true.
Proof.
  intros evs p Hp.
  destruct (follows_protocol_run evs) as (Hpb & _).
  specialize (Hpb p Hp). split; [exact Hpb|].
  destruct (released_once_run evs (sound p)) as (Hheld & _).
  destruct (Hheld Hpb) as (Hu & Hs & _). split; assumption.
Qed.

Lemma loaded_sound_is_held_witness :
  exists p, playback (world loaded_host) = Loaded p /\
            held loaded_host (sound p) = true /\
            unloads (calls (world loaded_host)) (sound p) = 0%nat.
Proof.
  eexists. split; [reflexivity|].
  destruct (loaded_sound_is_held
              [Render source_a; StatusUpdate 0%nat status_at_rate_0_5] _ eq_refl)
    as (H1 & H2 & _).
  split; [exact H1|exact H2].
Defined.

(** X2.  The calls on every sound the effect has created are, in this order:
    [setOnPlaybackStatusUpdate] with the callback and [loadAsync], then calls
    of the controls only, then, exactly when the sound is no longer held,
    [setOnPlaybackStatusUpdate(null)] and [unloadAsync]. *)
Theorem sound_life_cycle :
  forall (evs : list Event) (s : Sound),
    (s < created (world (run evs)))%nat ->
    exists props_s ctl,
      forallb is_control_call ctl = true /\
      calls_on (calls (world (run evs))) s
      = effect_calls s props_s ++ ctl
        ++ (if held (run evs) s then [] else cleanup_calls s).
Proof.
  intros evs s Hs.
  destruct (follows_protocol_run evs) as (_ & Inv).
  destruct (Inv s) as (_ & Hold).
  destruct (Hold Hs) as (props_s & ctl & Hctl & Hc & _).
  exists props_s, ctl. split; assumption.
Qed.

Lemma sound_life_cycle_witness :
  exists props_s ctl,
    forallb is_control_call ctl = true /\
    calls_on (calls (world (run [Render source_a; Render source_b; Unmount])))
             0%nat
    = effect_calls 0%nat props_s ++ ctl
      ++ (if held (run [Render source_a; Render source_b; Unmount]) 0%nat
          then [] else cleanup_calls 0%nat).
Proof.
  apply (sound_life_cycle [Render source_a; Render source_b; Unmount] 0%nat).
  cbn. lia.
Defined.

(** X3.  The held sound was loaded once, from the [source.uri] of the latest
    render and with a progress interval of 150 ms. *)
Theorem held_sound_is_loaded_from_current_source :
  forall (evs : list Event) (props : Props) (s : Sound),
    mounted (run evs) = Some (props, s) ->
    filter is_load (calls_on (calls (world (run evs))) s)
    = [(s, loadAsync (source_uri props) num_150)].
Proof.
  intros evs props s Hm.
  assert (Hheld : held (run evs) s = true).
  { unfold held. rewrite Hm. apply Nat.eqb_refl. }
  destruct (released_once_run evs s) as (Hrel & _).
  destruct (Hrel Hheld) as (_ & _ & Hlt).
  destruct (follows_protocol_run evs) as (_ & Inv).
  destruct (Inv s) as (_ & Hold).
  destruct (Hold Hlt) as (props_s & ctl & Hctl & Hc & Huri).
  destruct (Huri Hheld) as (props' & Hm' & Hu).
  rewrite Hm in Hm'. injection Hm' as <-.
  rewrite Hc, Hheld, app_nil_r, filter_app, Hu. cbn.
  f_equal. clear - Hctl.
  induction ctl as [|[s' c] ctl IH]; [reflexivity|].
  cbn in Hctl. apply andb_prop in Hctl as [Hc Hctl].
  cbn [filter]. destruct c; try discriminate; cbn; apply IH; exact Hctl.
Qed.

Lemma held_sound_is_loaded_from_current_source_witness :
  filter is_load
    (calls_on (calls (world (run [Render source_a; Render source_b]))) 1%nat)
  = [(1%nat, loadAsync "b" num_150)].
Proof.
  apply (held_sound_is_loaded_from_current_source
           [Render source_a; Render source_b] source_b 1%nat).
  reflexivity.
Defined.

(** X4.  No method is called on a sound after [unloadAsync] was called on it. *)
Theorem no_call_after_unload :
  forall (evs : list Event) (l1 l2 : list (Sound * SoundCall)) (s : Sound),
    calls (world (run evs)) = l1 ++ (s, unloadAsync) :: l2 ->
    calls_on l2 s = [].
Proof.
  intros evs l1 l2 s Hsplit.
  assert (HL : calls_on (calls (world (run evs))) s
               = calls_on l1 s ++ (s, unloadAsync) :: calls_on l2 s).
  { rewrite Hsplit, calls_on_app. unfold calls_on at 2. cbn [filter fst].
    rewrite Nat.eqb_refl. reflexivity. }
  assert (Hone : (1 <= unloads (calls (world (run evs))) s)%nat).
  { rewrite Hsplit, unloads_app. unfold unloads at 2. cbn [filter is_unload].
    rewrite Nat.eqb_refl. cbn [length]. lia. }
  destruct (follows_protocol_run evs) as (_ & Inv).
  destruct (Inv s) as (Hnew & Hold).
  destruct (Nat.lt_ge_cases s (created (world (run evs)))) as [Hs|Hs].
  2:{ rewrite (Hnew Hs) in HL. destruct (calls_on l1 s); discriminate. }
  destruct (Hold Hs) as (props_s & ctl & Hctl & Hc & _).
  destruct (released_once_run evs s) as (Hheld & Hfree).
  destruct (held (run evs) s) eqn:Hh.
  - destruct (Hheld eq_refl) as (Hu & _). lia.
  - destruct (Hfree eq_refl) as (_ & H1 & _). specialize (H1 Hs).
    pose proof (unloads_calls_on (calls (world (run evs))) s) as Hcount.
    rewrite HL, H1, unloads_app in Hcount.
    unfold unloads at 2 in Hcount. cbn [filter is_unload] in Hcount.
    rewrite Nat.eqb_refl in Hcount. cbn [length] in Hcount.
    fold (unloads (calls_on l2 s) s) in Hcount.
    destruct (calls_on l2 s) as [|x l] eqn:Hl2 using rev_ind; [reflexivity|].
    exfalso. clear IHl.
    rewrite HL in Hc.
    replace (calls_on l1 s ++ (s, unloadAsync) :: l ++ [x])
      with ((calls_on l1 s ++ (s, unloadAsync) :: l) ++ [x]) in Hc
      by (rewrite <- app_assoc; reflexivity).
    replace (effect_calls s props_s ++ ctl ++ cleanup_calls s)
      with ((effect_calls s props_s ++ ctl
             ++ [(s, setOnPlaybackStatusUpdate false)]) ++ [(s, unloadAsync)])
      in Hc by (rewrite <- !app_assoc; reflexivity).
    apply app_inj_tail in Hc as [_ ->].
    rewrite unloads_app in Hcount. unfold unloads at 3 in Hcount.
    cbn [filter is_unload] in Hcount. rewrite Nat.eqb_refl in Hcount.
    cbn [length] in Hcount. lia.
Qed.

Lemma no_call_after_unload_witness :
  calls_on (effect_calls 1%nat source_b) 0%nat = [].
Proof.
  apply (no_call_after_unload [Render source_a; Render source_b]
           (effect_calls 0%nat source_a ++ [(0%nat, setOnPlaybackStatusUpdate false)])
           (effect_calls 1%nat source_b) 0%nat).
  reflexivity.
Defined.

(** X5.  With [isAudioEnabled] false, or with the view-state [Unloaded], a press
    on any control makes no call and changes nothing. *)
Theorem press_does_nothing_unless_playable :
  forall (h : Host) (c : Control) (props : Props) (s : Sound),
    mounted h = Some (props, s) ->
    isPlayable props (playback (world h)) = false ->
    step h (Press c) = h.
Proof.
  intros h c props s Hm Hp. unfold step. rewrite Hm.
  destruct (button_of_AudioPlayer props (error (world h))
              (playback (world h)) c) as (b & Hb & _).
  rewrite Hb. unfold press.
  assert (He : enabled b = false).
  { destruct c; cbn in Hb; injection Hb as <-; cbn; rewrite Hp; reflexivity. }
  rewrite He. destruct h as [w m]. cbn in *. subst m. reflexivity.
Qed.

Lemma press_does_nothing_unless_playable_witness :
  step (run [Render source_a]) (Press PlayPause) = run [Render source_a].
Proof.
  apply (press_does_nothing_unless_playable
           (run [Render source_a]) PlayPause source_a 0%nat); reflexivity.
Defined.

(* ================================================================== *)
(** * What a press and a render leave alone *)

Lemma with_calls_nil (w : World) : with_calls w [] = w.
Proof. destruct w. unfold with_calls. cbn. rewrite app_nil_r. reflexivity. Qed.

(** X6.  A press only dispatches: it changes neither the view-state nor the
    error, and the calls it makes are calls of the controls on the sound
    that is held. *)
Theorem press_only_dispatches_to_held_sound :
  forall (evs : list Event) (c : Control),
    exists cs,
      step (run evs) (Press c)
      = {| world := with_calls (world (run evs)) cs;
           mounted := mounted (run evs) |} /\
      forallb is_control_call cs = true /\
      forall s, held (run evs) s = false -> calls_on cs s = [].
Proof.
  intros evs c.
  destruct (follows_protocol_run evs) as (Hpb & _).
  set (h := run evs) in *.
  assert (Hsame : h = {| world := with_calls (world h) [];
                         mounted := mounted h |})
    by (rewrite with_calls_nil; destruct h; reflexivity).
  unfold step. destruct (mounted h) as [[props s0]|] eqn:Hm.
  2:{ exists []. split; [exact Hsame|]. split; reflexivity. }
  destruct (button_of_AudioPlayer props (error (world h))
              (playback (world h)) c) as (b & Hb & Hon).
  rewrite Hb. unfold press. destruct (enabled b).
  2:{ exists []. split; [|split; reflexivity].
      unfold exec, ret. cbn [snd]. rewrite with_calls_nil. reflexivity. }
  rewrite Hon.
  destruct (handler_calls_on c (playback (world h)) (world h))
    as (cs & He & Hctl & Hon_s).
  exists cs. rewrite He. split; [reflexivity|]. split; [exact Hctl|].
  intros s Hs. rewrite Hon_s.
  destruct (playback (world h)) as [|p] eqn:Hp; [reflexivity|].
  destruct (Nat.eqb_spec (sound p) s) as [<-|_]; [|reflexivity].
  rewrite (Hpb p eq_refl) in Hs. discriminate.
Qed.

(** X7.  Once the component is mounted, only a report of the runtime (a status
    update or a rejected load) changes the error: a render, also one with a
    new source, a press and the unmount leave it as it is. *)
Theorem error_changes_only_by_report :
  forall (h : Host) (ev : Event) (props : Props) (s : Sound),
    mounted h = Some (props, s) ->
    is_report ev = false ->
    error (world (step h ev)) = error (world h).
Proof.
  intros h ev props s Hm Hev. unfold step. rewrite Hm.
  destruct ev as [props'| |s' st|s' e|c]; try discriminate.
  - destruct (String.eqb (source_uri props) (source_uri props'));
      [reflexivity|].
    unfold bind. rewrite cleanup_eq, effect_eq. reflexivity.
  - unfold exec. rewrite cleanup_eq. reflexivity.
  - destruct (button_of_AudioPlayer props (error (world h))
                (playback (world h)) c) as (b & Hb & Hon).
    rewrite Hb. unfold press. destruct (enabled b); [|reflexivity].
    rewrite Hon.
    destruct (handler_calls c (playback (world h)) (world h))
      as (cs & He & _).
    cbn [world]. rewrite He. reflexivity.
Qed.

Lemma error_changes_only_by_report_witness :
  error (world (step (run [Render source_a; LoadRejected 0%nat load_failed])
                     (Render source_b)))
  = Some load_failed.
Proof.
  rewrite (error_changes_only_by_report
             (run [Render source_a; LoadRejected 0%nat load_failed])
             (Render source_b) source_a 0%nat); reflexivity.
Defined.

(* ================================================================== *)
(** * The controls pressed twice, and what the buttons show *)

Lemma SFltb_asym (x y : number) : SFltb x y = true -> SFltb y x = false.
Proof.
  intros H. apply SFleb_not_SFltb.
  unfold SFltb in H. unfold SFleb.
  destruct (SFcompare x y) as [[]|]; try discriminate; reflexivity.
Qed.

Lemma last_Some_snoc {A} (l : list A) (x : A) :
  last (map Some (l ++ [x])) None = Some x.
Proof. rewrite map_app. apply last_last. Qed.

(** X8.  Each of Repeat, Mute and Correct Pitch undoes itself: pressed again after
    the status update that reports the toggled value, it dispatches the value
    the state had before the first press. *)
Theorem toggles_undo_themselves :
  forall (p : LoadedPlayback) (st : PlaybackStatus) (w : World),
    (status_isLooping st = Some (negb (isLooping p)) ->
     last_call (press_twice Repeat p st w)
     = Some (sound p, setIsLoopingAsync (isLooping p))) /\
    (status_isMuted st = Some (negb (isMuted p)) ->
     last_call (press_twice Mute p st w)
     = Some (sound p, setIsMutedAsync (isMuted p))) /\
    (status_shouldCorrectPitch st = Some (negb (shouldCorrectPitch p)) ->
     status_rate st = Some (rate p) ->
     last_call (press_twice CorrectPitch p st w)
     = Some (sound p, setRateAsync (rate p) (shouldCorrectPitch p) High)).
Proof.
  intros p st w. unfold press_twice.
  destruct st as [err|pos dur pl lo mu r pitch]; cbn;
    (split; [|split]); try discriminate.
  - intros [= ->]. rewrite negb_involutive. apply last_Some_snoc.
  - intros [= ->]. rewrite negb_involutive. apply last_Some_snoc.
  - intros [= ->] [= ->]. rewrite negb_involutive. apply last_Some_snoc.
Qed.

Lemma toggles_undo_themselves_witness :
  last_call
    (press_twice Repeat muted_and_looping
                 (StatusLoaded num_0 num_1000 true false true num_2 true)
                 empty_world)
  = Some (0%nat, setIsLoopingAsync true).
Proof.
  apply (proj1 (toggles_undo_themselves muted_and_looping
                  (StatusLoaded num_0 num_1000 true false true num_2 true)
                  empty_world)).
  reflexivity.
Defined.

Lemma last_rate_Slower p w :
  last_rate (calls (exec (handler Slower (Loaded p)) w))
  = Some (if num_lt (rate p) num_1 then num_1 else num_0_5).
Proof. apply last_rate_app_setRate. Qed.

Lemma last_rate_Faster p w :
  last_rate (calls (exec (handler Faster (Loaded p)) w))
  = Some (if num_gt (rate p) num_1 then num_1 else num_2).
Proof. apply last_rate_app_setRate. Qed.

(** X9.  Slower alternates between 0.5 and 1, and Faster between 2 and 1: pressed
    again after the status update that reports the rate it dispatched, the
    button dispatches the other of its two rates. *)
Theorem rate_buttons_alternate :
  forall (p : LoadedPlayback) (st : PlaybackStatus) (w : World),
    (status_rate st = last_rate (calls (exec (handler Slower (Loaded p)) w)) ->
     exists r1 r2,
       last_rate (calls (exec (handler Slower (Loaded p)) w)) = Some r1 /\
       last_rate (calls (press_twice Slower p st w)) = Some r2 /\
       ((r1 = num_0_5 /\ r2 = num_1) \/ (r1 = num_1 /\ r2 = num_0_5))) /\
    (status_rate st = last_rate (calls (exec (handler Faster (Loaded p)) w)) ->
     exists r1 r2,
       last_rate (calls (exec (handler Faster (Loaded p)) w)) = Some r1 /\
       last_rate (calls (press_twice Faster p st w)) = Some r2 /\
       ((r1 = num_2 /\ r2 = num_1) \/ (r1 = num_1 /\ r2 = num_2))).
Proof.
  intros p st w. unfold press_twice. split.
  - rewrite last_rate_Slower.
    destruct st as [err|pos dur pl lo mu r pitch]; cbn [status_rate];
      [discriminate|].
    intros [= ->]. do 2 eexists. split; [reflexivity|].
    cbn [handlePlaybackStatusUpdate exec bind setPlayback setError snd
         playback].
    rewrite last_rate_Slower. cbn [rate]. split; [reflexivity|].
    destruct (num_lt (rate p) num_1); [right|left]; split; reflexivity.
  - rewrite last_rate_Faster.
    destruct st as [err|pos dur pl lo mu r pitch]; cbn [status_rate];
      [discriminate|].
    intros [= ->]. do 2 eexists. split; [reflexivity|].
    cbn [handlePlaybackStatusUpdate exec bind setPlayback setError snd
         playback].
    rewrite last_rate_Faster. cbn [rate]. split; [reflexivity|].
    destruct (num_gt (rate p) num_1); [right|left]; split; reflexivity.
Qed.

Lemma rate_buttons_alternate_witness :
  exists r1 r2,
    last_rate (calls (exec (handler Slower (Loaded at_rate_1)) empty_world))
    = Some r1 /\
    last_rate (calls (press_twice Slower at_rate_1 status_at_rate_0_5
                                  empty_world)) = Some r2 /\
    ((r1 = num_0_5 /\ r2 = num_1) \/ (r1 = num_1 /\ r2 = num_0_5)).
Proof.
  apply (proj1 (rate_buttons_alternate at_rate_1 status_at_rate_0_5
                  empty_world)).
  reflexivity.
Defined.

(** X10.  Slower and Faster are never highlighted together, neither is at rate 1,
    and a press on a highlighted one dispatches rate 1. *)
Theorem highlighted_rate_button_resets :
  forall (props : Props) (err : ErrorState) (p : LoadedPlayback) (w : World),
    exists slower faster,
      settings_button (AudioPlayer props err (Loaded p)) Slower = Some slower /\
      settings_button (AudioPlayer props err (Loaded p)) Faster = Some faster /\
      active slower && active faster = false /\
      (rate p = num_1 -> active slower = false /\ active faster = false) /\
      (active slower = true ->
       last_rate (calls (exec (onPress slower) w)) = Some num_1) /\
      (active faster = true ->
       last_rate (calls (exec (onPress faster) w)) = Some num_1).
Proof.
  intros props err p w. do 2 eexists.
  split; [reflexivity|]. split; [reflexivity|].
  cbn [active onPress isLoaded_and].
  change (onPress_Slower (Loaded p)) with (handler Slower (Loaded p)).
  change (onPress_Faster (Loaded p)) with (handler Faster (Loaded p)).
  rewrite last_rate_Slower, last_rate_Faster.
  repeat split.
  - unfold num_lt, num_gt.
    destruct (SFltb (rate p) num_1) eqn:H; [|reflexivity].
    rewrite (SFltb_asym _ _ H). reflexivity.
  - rewrite H. reflexivity.
  - rewrite H. reflexivity.
  - intros ->. reflexivity.
  - intros ->. reflexivity.
Qed.

Lemma highlighted_rate_button_resets_witness :
  exists slower faster,
    settings_button (AudioPlayer source_a None (Loaded at_rate_1)) Slower
    = Some slower /\
    settings_button (AudioPlayer source_a None (Loaded at_rate_1)) Faster
    = Some faster /\
    active slower = false /\ active faster = false.
Proof.
  destruct (highlighted_rate_button_resets source_a None at_rate_1 empty_world)
    as (slower & faster & Hs & Hf & _ & H1 & _).
  exists slower, faster. split; [exact Hs|]. split; [exact Hf|].
  apply H1. reflexivity.
Defined.



(* ================================================================== *)
(** * The decimal digits of a product by a power of ten *)

Lemma append_assoc (a b c : string) :
  ((a ++ b) ++ c)%string = (a ++ (b ++ c))%string.
Proof. induction a as [|x a IH]; cbn; [reflexivity|]. rewrite IH. reflexivity. Qed.

Lemma zeros_snoc (j : nat) :
  (zeros j ++ "0")%string = zeros (S j).
Proof. induction j as [|j IH]; cbn; [reflexivity|]. rewrite IH. reflexivity. Qed.

(** More fuel than the number has bits changes nothing. *)
Lemma digits_fuel_stable (f : nat) :
  forall (n : Z) (f' : nat),
    (1 <= f)%nat -> 0 <= n < 2 ^ Z.of_nat f -> (f <= f')%nat ->
    digits_fuel f' n = digits_fuel f n.
Proof.
  induction f as [|f IH]; intros n f' Hf Hn Hf'; [lia|].
  destruct f' as [|f']; [lia|]. cbn [digits_fuel].
  destruct (Z.ltb_spec n 10) as [Hlt|Hge]; [reflexivity|].
  assert (Hf1 : (1 <= f)%nat).
  { destruct f as [|f]; [|lia]. change (2 ^ Z.of_nat 1) with 2 in Hn. lia. }
  rewrite (IH (n / 10) f'); [reflexivity|exact Hf1| |lia].
  split; [apply Z.div_pos; lia|].
  apply Z.div_lt_upper_bound; [lia|].
  rewrite Nat2Z.inj_succ, Z.pow_succ_r in Hn by lia. lia.
Qed.

Lemma digits_eq_fuel (n : Z) (f : nat) :
  (1 <= f)%nat -> 0 <= n < 2 ^ Z.of_nat f -> digits n = digits_fuel f n.
Proof.
  intros Hf Hn. unfold digits.
  destruct (Z.eq_dec n 0) as [->|Hn0].
  - destruct f as [|f]; [lia|]. reflexivity.
  - assert (Hpos : 0 < n) by lia.
    destruct (Z.log2_spec n Hpos) as [Hlo Hhi].
    pose proof (Z.log2_nonneg n) as Hnn.
    symmetry. apply digits_fuel_stable.
    + lia.
    + rewrite Nat2Z.inj_succ, Z2Nat.id by exact Hnn. lia.
    + assert (Z.log2 n < Z.of_nat f) by (apply Z.log2_lt_pow2; lia). lia.
Qed.

Lemma digits_mul_10 (n : Z) :
  1 <= n -> digits (10 * n) = (digits n ++ "0")%string.
Proof.
  intros Hn.
  destruct (Z.log2_spec n ltac:(lia)) as [_ Hhi].
  pose proof (Z.log2_nonneg n) as Hnn.
  set (f := S (Z.to_nat (Z.log2 n))).
  assert (Hf : n < 2 ^ Z.of_nat f).
  { subst f. rewrite Nat2Z.inj_succ, Z2Nat.id by exact Hnn. exact Hhi. }
  assert (Hp : 0 < 2 ^ Z.of_nat f) by (apply Z.pow_pos_nonneg; lia).
  rewrite (digits_eq_fuel (10 * n) (S (f + 4))).
  - cbn [digits_fuel].
    destruct (Z.ltb_spec (10 * n) 10) as [|_]; [lia|].
    replace (10 * n / 10) with n by (rewrite Z.mul_comm, Z.div_mul; lia).
    replace ((10 * n) mod 10) with 0 by (rewrite Z.mul_comm, Z.mod_mul; lia).
    rewrite (digits_eq_fuel n (f + 4)); [reflexivity|lia|].
    rewrite Nat2Z.inj_add, Z.pow_add_r by lia.
    replace (2 ^ Z.of_nat 4) with 16 by reflexivity. lia.
  - lia.
  - rewrite Nat2Z.inj_succ, Z.pow_succ_r, Nat2Z.inj_add, Z.pow_add_r by lia.
    replace (2 ^ Z.of_nat 4) with 16 by reflexivity. lia.
Qed.

Lemma digits_mul_pow10 (s : Z) (j : nat) :
  1 <= s -> digits (s * 10 ^ Z.of_nat j) = (digits s ++ zeros j)%string.
Proof.
  intros Hs. induction j as [|j IH].
  - cbn [zeros]. rewrite Z.mul_1_r.
    induction (digits s) as [|c d IHd]; cbn; [reflexivity|].
    rewrite <- IHd. reflexivity.
  - rewrite Nat2Z.inj_succ, Z.pow_succ_r by lia.
    replace (s * (10 * 10 ^ Z.of_nat j)) with (10 * (s * 10 ^ Z.of_nat j)) by ring.
    assert (0 < 10 ^ Z.of_nat j) by (apply Z.pow_pos_nonneg; lia).
    rewrite digits_mul_10 by nia.
    rewrite IH, append_assoc, zeros_snoc. reflexivity.
Qed.

(* ================================================================== *)
(** * [Number::toString] of an integer below [2^53] *)

Section ExactDecimal.
Open Scope Q_scope.

Lemma rounds_to_ge (m : positive) (e : Z) (v : Q) :
  rounds_to m e v = true ->
  magnitude m e - 2 ^ (canonical_exponent m e - 1) <= v.
Proof.
  unfold rounds_to.
  set (ce := canonical_exponent m e).
  assert (H2 : 2 ^ (ce - 2) <= 2 ^ (ce - 1)).
  { apply Qpower_le_compat_l; [lia|]. discriminate. }
  destruct (is_power_of_2 m && (emin prec emax <? ce)%Z);
    destruct (Z.even _); intros H; apply andb_prop in H as [H _];
    first [apply Qle_bool_iff in H | apply Qlt_bool_iff in H]; lra.
Qed.

Lemma rounds_to_comp (m : positive) (e : Z) (v v' : Q) :
  v == v' -> rounds_to m e v = rounds_to m e v'.
Proof.
  intros Hv. unfold rounds_to, Qlt_bool.
  destruct (Z.even _).
  - rewrite (Qleb_comp _ _ (Qeq_refl _) _ _ Hv),
      (Qleb_comp _ _ Hv _ _ (Qeq_refl _)). reflexivity.
  - rewrite (Qcompare_comp _ _ (Qeq_refl _) _ _ Hv),
      (Qcompare_comp _ _ Hv _ _ (Qeq_refl _)). reflexivity.
Qed.

(** With an exponent that is not positive, the only integer that rounds to
    an integer is that integer. *)
Lemma rounds_to_integer (m : positive) (e : Z) (X V : Z) :
  magnitude m e == inject_Z X ->
  (canonical_exponent m e <= 0)%Z ->
  rounds_to m e (inject_Z V) = true -> V = X.
Proof.
  intros Hx Hce Hr.
  pose proof (rounds_to_le _ _ _ Hr) as Hhi.
  pose proof (rounds_to_ge _ _ _ Hr) as Hlo.
  assert (H : 2 ^ (canonical_exponent m e - 1) <= 2 ^ (-1)).
  { apply Qpower_le_compat_l; [lia|]. discriminate. }
  change (2 ^ (-1)) with (1 # 2) in H.
  rewrite Hx in Hhi, Hlo.
  assert (H1 : inject_Z V < inject_Z (X + 1)).
  { rewrite inject_Z_plus. change (inject_Z 1) with 1. lra. }
  assert (H2 : inject_Z X < inject_Z (V + 1)).
  { rewrite inject_Z_plus. change (inject_Z 1) with 1. lra. }
  rewrite <- Zlt_Qlt in H1, H2. lia.
Qed.

Lemma candidate_integer (m : positive) (e n k : Z) (X s n' : Z) :
  magnitude m e == inject_Z X ->
  (0 <= X)%Z ->
  (canonical_exponent m e <= 0)%Z ->
  (k <= n)%Z ->
  candidate m e n k = Some (s, n') ->
  n' = n /\ (s * 10 ^ (n - k))%Z = X.
Proof.
  intros Hx HX Hce Hk. unfold candidate.
  set (P := (10 ^ (n - k))%Z).
  assert (HP : (0 < P)%Z) by (apply Z.pow_pos_nonneg; lia).
  assert (Hscale : 10 ^ (n - k) == inject_Z P).
  { subst P. rewrite Zpower_Qpower by lia. reflexivity. }
  assert (Hs : Qfloor (magnitude m e / 10 ^ (n - k)) = (X / P)%Z).
  { rewrite Zdiv_Qdiv. apply Qfloor_comp. rewrite Hx, Hscale. reflexivity. }
  rewrite Hs.
  assert (Hv : forall z, inject_Z z * 10 ^ (n - k) == inject_Z (z * P)).
  { intros z. rewrite Hscale, inject_Z_mult. reflexivity. }
  assert (Hr : forall z, rounds_to m e (inject_Z z * 10 ^ (n - k)) = true ->
                         (z * P)%Z = X).
  { intros z Hz. apply (rounds_to_integer m e X (z * P) Hx Hce).
    rewrite <- Hz. symmetry. apply rounds_to_comp. apply Hv. }
  pose proof (Z.div_mod X P ltac:(lia)) as Hdm.
  pose proof (Z.mod_pos_bound X P HP) as Hmod.
  destruct (rounds_to m e (inject_Z (X / P + 1) * 10 ^ (n - k))) eqn:H2.
  - apply Hr in H2. nia.
  - destruct (rounds_to m e (inject_Z (X / P) * 10 ^ (n - k))) eqn:H1;
      [|discriminate].
    intros [= <- <-]. split; [reflexivity|]. apply Hr. exact H1.
Qed.

Lemma Number_toString_exact (m : positive) (e : Z) (X : Z) :
  magnitude m e == inject_Z X ->
  (1 <= X < 10 ^ 21)%Z ->
  (canonical_exponent m e <= 0)%Z ->
  Number_toString (S754_finite false m e) = digits X.
Proof.
  intros Hx HX Hce. cbn [Number_toString].
  set (n := decimal_exponent (magnitude m e)).
  assert (Hn : (1 <= n <= 21)%Z).
  { subst n. unfold decimal_exponent.
    assert (H1 : Qle_bool 1 (magnitude m e) = true).
    { apply Qle_bool_iff. rewrite Hx. change 1 with (inject_Z 1).
      rewrite <- Zle_Qle. lia. }
    rewrite H1.
    rewrite (Qfloor_comp _ _ Hx), Qfloor_Z.
    apply (ndigits_le X 21%nat); [lia|]. apply HX. }
  destruct (shortest_finds m e n n (candidate_exact m e n X Hx) 21 1%Z)
    as (k & s & n' & Hk & Hc & ->); [lia|].
  destruct (candidate_integer m e n k X s n' Hx ltac:(lia) Hce ltac:(lia) Hc)
    as [-> Hs].
  unfold layout.
  destruct (Z.leb_spec k n) as [_|]; [|lia].
  destruct (Z.leb_spec n 21) as [_|]; [|lia]. cbn [andb].
  assert (HP : (0 < 10 ^ (n - k))%Z) by (apply Z.pow_pos_nonneg; lia).
  rewrite <- Hs.
  rewrite <- (Z2Nat.id (n - k)) at 2 by lia.
  symmetry. apply digits_mul_pow10. nia.
Qed.

End ExactDecimal.

Lemma Number_toString_natural (n : Z) :
  0 <= n < 2 ^ 53 -> Number_toString (num_of_natural n) = digits n.
Proof.
  intros Hn. destruct n as [|p|p]; [reflexivity| |lia].
  cbn [num_of_natural].
  destruct (normalize_integer p) as (m' & e' & -> & Hmag & Hce); [lia|].
  apply Number_toString_exact; [exact Hmag| |exact Hce].
  pose proof pow2_53_lt_pow10_21. lia.
Qed.

(* ================================================================== *)
(** * The seconds of any duration *)

Lemma Math_floor_fraction (m : positive) (e : Z) :
  e < 0 ->
  Math_floor (S754_finite false m e) = num_of_natural (Zpos m / 2 ^ (- e)).
Proof.
  intros He. unfold Math_floor.
  destruct (Z.leb_spec 0 e) as [|_]; [lia|]. reflexivity.
Qed.

(** [normalize] keeps the value, here seen through its floor. *)
Lemma Math_floor_normalize (r : positive) (g : Z) :
  g < 0 -> Zpos r < 60 * 2 ^ (- g) ->
  Math_floor (normalize false r g) = num_of_natural (Zpos r / 2 ^ (- g)).
Proof.
  intros Hg Hr. unfold normalize.
  assert (Hd : Zpos (digits2_pos r) <= 6 - g).
  { apply digits2_pos_le. replace (6 - g) with (6 + - g) by lia.
    rewrite Z.pow_add_r by lia.
    assert (0 < 2 ^ (- g)) by (apply Z.pow_pos_nonneg; lia).
    replace (2 ^ 6) with 64 by reflexivity. lia. }
  set (ce := Z.max (Zpos (digits2_pos r) + g - prec) (emin prec emax)).
  assert (Hce : -1074 <= ce < 0) by (subst ce; unfold prec, emax, emin; lia).
  assert (HG : 0 < 2 ^ (- g)) by (apply Z.pow_pos_nonneg; lia).
  destruct (Z.leb_spec ce g) as [Hle|Hgt].
  - assert (Hp : 0 < 2 ^ (g - ce)) by (apply Z.pow_pos_nonneg; lia).
    rewrite Math_floor_fraction by lia. f_equal.
    rewrite Z2Pos.id by (apply Z.mul_pos_pos; lia).
    replace (- ce) with (- g + (g - ce)) by lia.
    rewrite Z.pow_add_r by lia.
    apply Z.div_mul_cancel_r; lia.
  - assert (Hp : 0 < 2 ^ (ce - g)) by (apply Z.pow_pos_nonneg; lia).
    assert (Hp' : 0 < 2 ^ (- ce)) by (apply Z.pow_pos_nonneg; lia).
    destruct (Z.eqb_spec (Zpos r mod 2 ^ (ce - g)) 0) as [Hdiv|_].
    + rewrite Math_floor_fraction by lia. f_equal.
      assert (Hq : 0 < Zpos r / 2 ^ (ce - g)).
      { apply Z.div_str_pos. split; [exact Hp|].
        pose proof (Z.div_mod (Zpos r) (2 ^ (ce - g)) ltac:(lia)) as Hdm.
        rewrite Hdiv in Hdm.
        assert (0 < Zpos r / 2 ^ (ce - g)) by nia. nia. }
      rewrite Z2Pos.id by exact Hq.
      rewrite Z.div_div by lia.
      rewrite <- Z.pow_add_r by lia.
      do 2 f_equal. lia.
    + apply Math_floor_fraction. exact Hg.
Qed.

Lemma integer_part_scaled (m : positive) (e g : Z) :
  g <= e -> g < 0 ->
  (Zpos m * 2 ^ (e - g)) / 2 ^ (- g) = integer_part m e.
Proof.
  intros Hge Hg. unfold integer_part.
  destruct (Z.leb_spec 0 e) as [He|He].
  - replace (e - g) with (e + - g) by lia.
    rewrite Z.pow_add_r, Z.mul_assoc by lia.
    apply Z.div_mul. assert (0 < 2 ^ (- g)) by (apply Z.pow_pos_nonneg; lia). lia.
  - replace (- g) with (- e + (e - g)) by lia.
    rewrite Z.pow_add_r by lia.
    assert (0 < 2 ^ (- e)) by (apply Z.pow_pos_nonneg; lia).
    assert (0 < 2 ^ (e - g)) by (apply Z.pow_pos_nonneg; lia).
    apply Z.div_mul_cancel_r; lia.
Qed.

Lemma mod_then_div (a G : Z) :
  0 < G -> (a mod (G * 60)) / G = (a / G) mod 60.
Proof.
  intros HG. rewrite Z.rem_mul_r by lia.
  rewrite (Z.mul_comm G), Z.div_add by lia.
  rewrite Z.div_small by (apply Z.mod_pos_bound; exact HG). reflexivity.
Qed.

(** The seconds the formatter shows are the whole seconds modulo 60, for
    every finite duration that is not negative. *)
Lemma seconds_value (m : positive) (e : Z) :
  Math_floor (num_rem (S754_finite false m e) num_60)
  = num_of_natural (integer_part m e mod 60).
Proof.
  unfold num_rem, num_60. cbv beta iota.
  set (g := Z.min e (-47)).
  assert (Hg : g <= -47) by (subst g; lia).
  assert (Hge : g <= e) by (subst g; lia).
  assert (HG : 0 < 2 ^ (- g)) by (apply Z.pow_pos_nonneg; lia).
  set (B := 8444249301319680 * 2 ^ (-47 - g)).
  assert (HB : B = 2 ^ (- g) * 60).
  { subst B. replace 8444249301319680 with (60 * 2 ^ 47)
      by (vm_compute; reflexivity).
    rewrite <- Z.mul_assoc, <- Z.pow_add_r by lia.
    rewrite Z.mul_comm. do 2 f_equal. lia. }
  pose proof (mod_then_div (Zpos m * 2 ^ (e - g)) (2 ^ (- g)) HG) as Hmd.
  rewrite integer_part_scaled in Hmd by lia.
  rewrite <- HB in Hmd.
  pose proof (Z.mod_pos_bound (Zpos m * 2 ^ (e - g)) B ltac:(lia)) as Hr.
  destruct ((Zpos m * 2 ^ (e - g)) mod B) as [|r|r]; [| |lia].
  - rewrite <- Hmd. reflexivity.
  - rewrite Math_floor_normalize by lia. rewrite Hmd. reflexivity.
Qed.

(* ================================================================== *)
(** * Rounding a quotient of 53 or 54 bits *)

Lemma pow2_52 : 2 ^ 52 = 4503599627370496.
Proof. vm_compute. reflexivity. Qed.

Lemma pow2_54 : 2 ^ 54 = 18014398509481984.
Proof. vm_compute. reflexivity. Qed.

Lemma Zdigits2_eq (m k : Z) :
  1 <= k -> 2 ^ (k - 1) <= m < 2 ^ k -> Zdigits2 m = k.
Proof.
  intros Hk [Hlo Hhi].
  assert (Hp : 0 < 2 ^ (k - 1)) by (apply Z.pow_pos_nonneg; lia).
  destruct m as [|p|p]; try lia. cbn [Zdigits2].
  pose proof (digits2_pos_le p k Hhi) as Hle.
  destruct (digits2_pos_bounds p) as [_ Hlt].
  destruct (Z.le_gt_cases k (Zpos (digits2_pos p))) as [|Hgt]; [lia|].
  assert (2 ^ Zpos (digits2_pos p) <= 2 ^ (k - 1))
    by (apply Z.pow_le_mono_r; lia).
  lia.
Qed.

Lemma shr_fexp_53 (m e : Z) (l : location) :
  2 ^ 52 <= m < 2 ^ 53 -> -1074 <= e ->
  shr_fexp prec emax m e l = (shr_record_of_loc m l, e).
Proof.
  intros Hm He. unfold shr_fexp.
  rewrite (Zdigits2_eq m 53) by (change (53 - 1) with 52; lia).
  unfold fexp, emin, prec, emax.
  replace (Z.max (53 + e - 53) (3 - 1024 - 53) - e) with 0 by lia.
  reflexivity.
Qed.

Lemma shr_fexp_54 (m e : Z) (l : location) :
  2 ^ 53 <= m < 2 ^ 54 -> -1075 <= e ->
  shr_fexp prec emax m e l = (shr_1 (shr_record_of_loc m l), e + 1).
Proof.
  intros Hm He. unfold shr_fexp.
  rewrite (Zdigits2_eq m 54) by (change (54 - 1) with 53; lia).
  unfold fexp, emin, prec, emax.
  replace (Z.max (54 + e - 53) (3 - 1024 - 53) - e) with 1 by lia.
  reflexivity.
Qed.

Lemma shr_r_shr_1 (r : shr_record) :
  0 <= shr_m r -> shr_r (shr_1 r) = Z.odd (shr_m r).
Proof.
  destruct r as [m r s]. cbn [shr_m]. intros Hm.
  destruct m as [|[p|p|]|p]; try reflexivity. lia.
Qed.

(** Rounding to nearest keeps the significand or adds one to it, and adds
    one only when the round bit is set. *)
Lemma round_nearest_even_cases (r : shr_record) :
  round_nearest_even (shr_m r) (loc_of_shr_record r) = shr_m r \/
  (round_nearest_even (shr_m r) (loc_of_shr_record r) = shr_m r + 1 /\
   shr_r r = true).
Proof.
  destruct r as [m [|] [|]]; cbn; auto; destruct (Z.even m); auto.
Qed.

Lemma round_nearest_even_loc_cases (m : Z) (l : location) :
  round_nearest_even m l = m \/ round_nearest_even m l = m + 1.
Proof. destruct l as [|[]]; cbn; auto. destruct (Z.even m); auto. Qed.

(** Rounding a 53-bit significand that needs no shift. *)
Lemma binary_round_aux_final (m2 e1 : Z) :
  2 ^ 52 <= m2 <= 2 ^ 53 -> -1074 <= e1 <= -2 ->
  exists m3 e3,
    (let '(mrs, e) := shr_fexp prec emax m2 e1 loc_Exact in
     match shr_m mrs with
     | Z0 => S754_zero false
     | Zpos m => if e <=? emax - prec then S754_finite false m e
                 else S754_infinity false
     | Zneg _ => S754_nan
     end) = S754_finite false m3 e3 /\
    2 ^ 52 <= Zpos m3 < 2 ^ 53 /\ e1 <= e3 <= e1 + 1 /\
    floor_of (Zpos m3) e3 = floor_of m2 e1.
Proof.
  intros Hm He. rewrite pow2_52, pow2_53 in Hm.
  destruct (Z.eq_dec m2 9007199254740992) as [->|Hne].
  - rewrite shr_fexp_54 by (rewrite ?pow2_53, ?pow2_54; lia).
    cbn [shr_record_of_loc shr_1 shr_m].
    destruct (Z.leb_spec (e1 + 1) (emax - prec)) as [_|H];
      [|unfold emax, prec in H; lia].
    eexists _, _. split; [reflexivity|].
    split; [rewrite pow2_52, pow2_53; lia|]. split; [lia|].
    unfold floor_of.
    replace (- e1) with (1 + - (e1 + 1)) by lia.
    rewrite Z.pow_add_r by lia.
    assert (0 < 2 ^ (- (e1 + 1))) by (apply Z.pow_pos_nonneg; lia).
    change 9007199254740992 with (2 ^ 1 * 4503599627370496).
    symmetry. apply Z.div_mul_cancel_l; lia.
  - rewrite shr_fexp_53 by (rewrite ?pow2_52, ?pow2_53; lia).
    cbn [shr_record_of_loc shr_m].
    destruct m2 as [|m|m]; try lia.
    destruct (Z.leb_spec e1 (emax - prec)) as [_|H];
      [|unfold emax, prec in H; lia].
    eexists _, _. split; [reflexivity|].
    split; [rewrite pow2_52, pow2_53; lia|]. split; [lia|reflexivity].
Qed.

(** What [binary_round_aux] makes of a quotient of 53 or 54 bits: it drops
    [n1] bits, none or one, and then keeps the significand or adds one to
    it, the latter after a dropped bit only when that bit was set. *)
Lemma binary_round_aux_shape (mz ez : Z) (lz : location) :
  2 ^ 52 <= mz < 2 ^ 54 -> -1074 <= ez <= -4 ->
  exists m3 e3 n1 m2,
    binary_round_aux prec emax false mz ez lz = S754_finite false m3 e3 /\
    2 ^ 52 <= Zpos m3 < 2 ^ 53 /\ ez <= e3 <= ez + 2 /\
    floor_of (Zpos m3) e3 = floor_of m2 (ez + n1) /\
    ((n1 = 0 /\ (m2 = mz \/ m2 = mz + 1)) \/
     (n1 = 1 /\ (m2 = mz / 2 \/ (m2 = mz / 2 + 1 /\ Z.odd mz = true)))).
Proof.
  intros Hm He. unfold binary_round_aux.
  rewrite pow2_52, pow2_54 in Hm.
  destruct (Z.lt_ge_cases mz 9007199254740992) as [Hlt|Hge].
  - rewrite shr_fexp_53 by (rewrite ?pow2_52, ?pow2_53; lia).
    rewrite shr_m_shr_record_of_loc.
    set (m2 := round_nearest_even mz _).
    assert (H2 : m2 = mz \/ m2 = mz + 1)
      by apply round_nearest_even_loc_cases.
    destruct (binary_round_aux_final m2 ez)
      as (m3 & e3 & Hres & Hm3 & He3 & Hfl).
    + rewrite pow2_52, pow2_53. lia.
    + lia.
    + exists m3, e3, 0, m2. rewrite Z.add_0_r.
      split; [exact Hres|]. split; [exact Hm3|]. split; [lia|].
      split; [exact Hfl|]. left. split; [reflexivity|exact H2].
  - rewrite shr_fexp_54 by (rewrite ?pow2_53, ?pow2_54; lia).
    set (r := shr_1 (shr_record_of_loc mz lz)).
    assert (Hr0 : 0 <= shr_m (shr_record_of_loc mz lz))
      by (rewrite shr_m_shr_record_of_loc; lia).
    assert (Hrm : shr_m r = mz / 2).
    { subst r. rewrite shr_m_shr_1 by exact Hr0.
      rewrite shr_m_shr_record_of_loc. reflexivity. }
    assert (Hrr : shr_r r = Z.odd mz).
    { subst r. rewrite shr_r_shr_1 by exact Hr0.
      rewrite shr_m_shr_record_of_loc. reflexivity. }
    set (m2 := round_nearest_even (shr_m r) (loc_of_shr_record r)).
    assert (H2 : m2 = mz / 2 \/ (m2 = mz / 2 + 1 /\ Z.odd mz = true)).
    { subst m2. destruct (round_nearest_even_cases r) as [->|[-> Hb]].
      - left. exact Hrm.
      - right. rewrite Hrm, <- Hrr. split; [reflexivity|exact Hb]. }
    assert (Hhalf : 4503599627370496 <= mz / 2 < 9007199254740992).
    { split; [apply Z.div_le_lower_bound; lia|
              apply Z.div_lt_upper_bound; lia]. }
    destruct (binary_round_aux_final m2 (ez + 1))
      as (m3 & e3 & Hres & Hm3 & He3 & Hfl).
    + rewrite pow2_52, pow2_53. lia.
    + lia.
    + exists m3, e3, 1, m2.
      split; [exact Hres|]. split; [exact Hm3|]. split; [lia|].
      split; [exact Hfl|]. right. split; [reflexivity|exact H2].
Qed.

(* ================================================================== *)
(** * The floor of a rounded quotient *)

Lemma div_eucl_div_mod (a b : Z) : Z.div_eucl a b = (a / b, a mod b).
Proof. unfold Z.div, Z.modulo. destruct (Z.div_eucl a b). reflexivity. Qed.

Lemma div_succ_same (a b : Z) :
  0 < b -> (a + 1) mod b <> 0 -> (a + 1) / b = a / b.
Proof.
  intros Hb Hne.
  pose proof (Z.div_mod (a + 1) b ltac:(lia)) as Hdm.
  pose proof (Z.mod_pos_bound (a + 1) b Hb) as Hr.
  apply (Z.div_unique a b ((a + 1) / b) ((a + 1) mod b - 1)); lia.
Qed.

(** Division of a normal number by the constant [o * 2^(ey + 53 - a)],
    whose significand is [my = o * 2^(53 - a)] with [o] of [a] bits.  The
    code divides by 60 ([o = 15], [a = 4]) and by 1000 ([o = 125],
    [a = 7]). *)
Section Quotient.

Variables (my : positive) (ey o a : Z).
Hypothesis Hmy : Zpos my = o * 2 ^ (53 - a).
Hypothesis Ha : 1 <= a <= 53.
Hypothesis Ho : 2 ^ (a - 1) <= o < 2 ^ a.
Hypothesis Hey : a <= ey + 53.
Hypothesis Hey4 : 4 <= ey + 53.

Let b := ey + 53.

Lemma pow2_a_split : 2 ^ a = 2 * 2 ^ (a - 1).
Proof.
  replace a with (1 + (a - 1)) at 1 by lia.
  rewrite Z.pow_add_r by lia. reflexivity.
Qed.

Lemma divisor_bounds : 2 ^ 52 <= Zpos my < 2 ^ 53.
Proof.
  assert (H52 : 2 ^ 52 = 2 ^ (a - 1) * 2 ^ (53 - a))
    by (rewrite <- Z.pow_add_r by lia; f_equal; lia).
  assert (H53 : 2 ^ 53 = 2 ^ a * 2 ^ (53 - a))
    by (rewrite <- Z.pow_add_r by lia; f_equal; lia).
  assert (0 < 2 ^ (53 - a)) by (apply Z.pow_pos_nonneg; lia).
  rewrite Hmy, H52, H53. nia.
Qed.

Lemma SFdiv_core_constant (m : positive) (e : Z) :
  2 ^ 52 <= Zpos m < 2 ^ 53 -> -1074 + b <= e ->
  SFdiv_core_binary prec emax (Zpos m) e (Zpos my) ey
  = ((Zpos m * 2 ^ 53) / Zpos my, e - b,
     new_location (Zpos my) ((Zpos m * 2 ^ 53) mod Zpos my)).
Proof.
  intros Hm He. unfold SFdiv_core_binary.
  rewrite (Zdigits2_eq (Zpos m) 53) by (change (53 - 1) with 52; lia).
  rewrite (Zdigits2_eq (Zpos my) 53)
    by (change (53 - 1) with 52; first [lia|apply divisor_bounds]).
  unfold fexp, emin, prec, emax. cbv zeta.
  replace (Z.min (Z.max (53 + e - (53 + ey) - 53) (3 - 1024 - 53)) (e - ey))
    with (e - b) by (subst b; lia).
  replace (e - ey - (e - b)) with 53 by (subst b; lia).
  cbv iota. rewrite Z.shiftl_mul_pow2 by lia.
  rewrite div_eucl_div_mod. reflexivity.
Qed.

(** The integer quotient is [2^a * m / o]. *)
Lemma quotient_eq (m : Z) : (m * 2 ^ 53) / Zpos my = (2 ^ a * m) / o.
Proof.
  assert (H53 : 2 ^ 53 = 2 ^ a * 2 ^ (53 - a))
    by (rewrite <- Z.pow_add_r by lia; f_equal; lia).
  assert (0 < 2 ^ (53 - a)) by (apply Z.pow_pos_nonneg; lia).
  assert (0 < 2 ^ (a - 1)) by (apply Z.pow_pos_nonneg; lia).
  rewrite Hmy, H53.
  replace (m * (2 ^ a * 2 ^ (53 - a))) with ((2 ^ a * m) * 2 ^ (53 - a))
    by ring.
  apply Z.div_mul_cancel_r; lia.
Qed.

(** Rounding up never reaches a multiple of [2^a]: the remainder of
    [2^a * m] by [o] is below [o], and [o] is below [2^a]. *)
Lemma no_round_up (m qz rho G : Z) :
  2 ^ a * m = o * qz + rho -> 0 <= rho < o -> qz + 1 <> 2 ^ a * G.
Proof.
  intros Hdm Hrho HG.
  assert (HP : 0 < 2 ^ a) by (apply Z.pow_pos_nonneg; lia).
  assert (HW : 2 ^ a * (m - o * G) = rho - o).
  { rewrite Z.mul_sub_distr_l, Hdm.
    replace (2 ^ a * (o * G)) with (o * (2 ^ a * G)) by ring.
    rewrite <- HG. ring. }
  destruct (Z.le_gt_cases 0 (m - o * G)); nia.
Qed.

Lemma num_div_constant (m : positive) (e : Z) :
  2 ^ 52 <= Zpos m < 2 ^ 53 -> -1074 + b <= e <= 0 ->
  exists m3 e3,
    num_div (S754_finite false m e) (S754_finite false my ey)
    = S754_finite false m3 e3 /\
    2 ^ 52 <= Zpos m3 < 2 ^ 53 /\ e - b <= e3 <= e - b + 2 /\
    floor_of (Zpos m3) e3 = (Zpos m / 2 ^ (- e)) / (o * 2 ^ (b - a)).
Proof.
  intros Hm He. unfold num_div, SFdiv.
  rewrite SFdiv_core_constant by lia.
  change (xorb false false) with false.
  rewrite quotient_eq.
  set (qz := (2 ^ a * Zpos m) / o).
  set (lz := new_location _ _).
  assert (HP : 0 < 2 ^ (a - 1)) by (apply Z.pow_pos_nonneg; lia).
  pose proof pow2_a_split as HPa.
  assert (Ho0 : 0 < o) by lia.
  pose proof (Z.div_mod (2 ^ a * Zpos m) o ltac:(lia)) as Hdm.
  pose proof (Z.mod_pos_bound (2 ^ a * Zpos m) o Ho0) as Hrho.
  fold qz in Hdm.
  set (rho := (2 ^ a * Zpos m) mod o) in *.
  assert (Hqz : 2 ^ 52 <= qz < 2 ^ 54).
  { rewrite pow2_52, pow2_53 in Hm. rewrite pow2_52, pow2_54. subst qz.
    split; [apply Z.div_le_lower_bound|apply Z.div_lt_upper_bound]; nia. }
  destruct (binary_round_aux_shape qz (e - b) lz Hqz ltac:(subst b; lia))
    as (m3 & e3 & n1 & m2 & -> & Hm3 & He3 & Hfl & Hcases).
  exists m3, e3. split; [reflexivity|]. split; [exact Hm3|].
  split; [exact He3|]. rewrite Hfl. unfold floor_of.
  set (E := - e).
  assert (HE : 0 <= E) by (subst E; lia).
  assert (HT : 0 < 2 ^ E) by (apply Z.pow_pos_nonneg; lia).
  assert (HB : 0 < 2 ^ (b - a)) by (apply Z.pow_pos_nonneg; lia).
  assert (Hb : 2 ^ b = 2 ^ a * 2 ^ (b - a))
    by (rewrite <- Z.pow_add_r by lia; f_equal; lia).
  assert (Hb1 : 2 ^ b = 2 * 2 ^ (b - 1)).
  { replace b with (1 + (b - 1)) at 1 by lia.
    rewrite Z.pow_add_r by (subst b; lia). reflexivity. }
  assert (HB1 : 0 < 2 ^ (b - 1)) by (apply Z.pow_pos_nonneg; subst b; lia).
  assert (HK : Zpos m / 2 ^ E / (o * 2 ^ (b - a)) = qz / (2 ^ b * 2 ^ E)).
  { subst qz. rewrite Z.div_div by nia.
    replace (2 ^ a * Zpos m / o / (2 ^ b * 2 ^ E))
      with (2 ^ a * Zpos m / (o * (2 ^ b * 2 ^ E)))
      by (rewrite Z.div_div by nia; reflexivity).
    rewrite Hb.
    replace (o * (2 ^ a * 2 ^ (b - a) * 2 ^ E))
      with (2 ^ a * (2 ^ E * (o * 2 ^ (b - a)))) by ring.
    symmetry. apply Z.div_mul_cancel_l; nia. }
  rewrite HK.
  destruct Hcases as [ [-> H2] | [-> H2] ].
  - replace (- (e - b + 0)) with (b + E) by (subst E; lia).
    rewrite Z.pow_add_r by (subst b; lia).
    destruct H2 as [ -> | -> ]; [reflexivity|].
    apply div_succ_same; [nia|].
    intros Hz. apply Z.div_exact in Hz; [|nia].
    apply (no_round_up (Zpos m) qz rho
             (2 ^ (b - a) * 2 ^ E * ((qz + 1) / (2 ^ b * 2 ^ E))));
      [exact Hdm|exact Hrho|].
    rewrite Hz at 1. rewrite Hb. ring.
  - replace (- (e - b + 1)) with ((b - 1) + E) by (subst E; lia).
    rewrite Z.pow_add_r by (subst b; lia).
    assert (Hhalf : qz / 2 / (2 ^ (b - 1) * 2 ^ E) = qz / (2 ^ b * 2 ^ E)).
    { rewrite Z.div_div by nia. f_equal. rewrite Hb1. ring. }
    destruct H2 as [ -> | [-> Hodd] ]; [exact Hhalf|].
    rewrite <- Hhalf.
    apply div_succ_same; [nia|].
    intros Hz. apply Z.div_exact in Hz; [|nia].
    apply Z.odd_spec in Hodd. destruct Hodd as [h Hh].
    assert (Hq2 : h = qz / 2) by (apply (Z.div_unique qz 2 h 1); lia).
    set (J := (qz / 2 + 1) / (2 ^ (b - 1) * 2 ^ E)) in *.
    apply (no_round_up (Zpos m) qz rho (2 ^ (b - a) * 2 ^ E * J));
      [exact Hdm|exact Hrho|].
    replace (qz + 1) with (2 * (qz / 2 + 1)) by lia.
    rewrite Hz.
    replace (2 * (2 ^ (b - 1) * 2 ^ E * J)) with (2 ^ b * 2 ^ E * J)
      by (rewrite Hb1; ring).
    rewrite Hb. ring.
Qed.

End Quotient.

(* ================================================================== *)
(** * The reading of [_formatTime] *)

Lemma integer_part_fraction (m : positive) (e : Z) :
  e <= 0 -> integer_part m e = Zpos m / 2 ^ (- e).
Proof.
  intros He. unfold integer_part.
  destruct (Z.leb_spec 0 e) as [H0|H0]; [|reflexivity].
  assert (e = 0) by lia. subst e. cbn. rewrite Z.div_1_r. lia.
Qed.

Lemma integer_part_bounds (m : positive) (e : Z) :
  e <= 0 -> 0 <= integer_part m e <= Zpos m.
Proof.
  intros He. rewrite integer_part_fraction by exact He.
  assert (0 < 2 ^ (- e)) by (apply Z.pow_pos_nonneg; lia).
  split; [apply Z.div_pos; lia|].
  apply Z.div_le_upper_bound; [lia|]. nia.
Qed.

Lemma num_div_60 (m : positive) (e : Z) :
  2 ^ 52 <= Zpos m < 2 ^ 53 -> -1068 <= e <= 0 ->
  Math_floor (num_div (S754_finite false m e) num_60)
  = num_of_natural (integer_part m e / 60).
Proof.
  intros Hm He.
  assert (H1 : Zpos 8444249301319680 = 15 * 2 ^ (53 - 4))
    by (vm_compute; reflexivity).
  assert (H3 : 2 ^ (4 - 1) <= 15 < 2 ^ 4) by (cbn; lia).
  destruct (num_div_constant _ (-47) _ _ H1 ltac:(lia) H3
              ltac:(lia) ltac:(lia) m e Hm ltac:(lia))
    as (m3 & e3 & Hq & _ & He3 & Hfl).
  change (15 * 2 ^ (-47 + 53 - 4)) with 60 in Hfl.
  unfold num_60. rewrite Hq, Math_floor_fraction by lia.
  fold (floor_of (Zpos m3) e3). rewrite Hfl.
  rewrite integer_part_fraction by lia. reflexivity.
Qed.

Lemma num_div_1000 (m : positive) (e : Z) :
  2 ^ 52 <= Zpos m < 2 ^ 53 -> -1064 <= e <= 0 ->
  exists m3 e3,
    num_div (S754_finite false m e) num_1000 = S754_finite false m3 e3 /\
    2 ^ 52 <= Zpos m3 < 2 ^ 53 /\ e - 10 <= e3 <= e - 8 /\
    integer_part m3 e3 = integer_part m e / 1000.
Proof.
  intros Hm He.
  assert (H1 : Zpos 8796093022208000 = 125 * 2 ^ (53 - 7))
    by (vm_compute; reflexivity).
  assert (H3 : 2 ^ (7 - 1) <= 125 < 2 ^ 7) by (cbn; lia).
  destruct (num_div_constant _ (-43) _ _ H1 ltac:(lia) H3
              ltac:(lia) ltac:(lia) m e Hm ltac:(lia))
    as (m3 & e3 & Hq & Hm3 & He3 & Hfl).
  change (125 * 2 ^ (-43 + 53 - 7)) with 1000 in Hfl.
  exists m3, e3. split; [exact Hq|]. split; [exact Hm3|]. split; [lia|].
  rewrite !integer_part_fraction by lia. exact Hfl.
Qed.

Lemma formatTime_normal (m : positive) (e : Z) :
  2 ^ 52 <= Zpos m < 2 ^ 53 -> -1068 <= e <= 0 ->
  _formatTime (S754_finite false m e) = clock_of_seconds (integer_part m e).
Proof.
  intros Hm He. unfold _formatTime, clock_of_seconds.
  rewrite num_div_60, seconds_value by assumption.
  pose proof (integer_part_bounds m e ltac:(lia)) as Ht.
  pose proof (Z.mod_pos_bound (integer_part m e) 60 ltac:(lia)) as Hs.
  assert (Hmin : 0 <= integer_part m e / 60 <= integer_part m e).
  { split; [apply Z.div_pos; lia|].
    apply Z.div_le_upper_bound; lia. }
  rewrite !Number_toString_natural; [reflexivity| |].
  - rewrite pow2_53. lia.
  - lia.
Qed.

(** X12.  For zero and for every normal duration below [2^53] seconds,
    [_formatTime] gives the clock reading of the whole seconds: the minutes
    [floor(d) / 60] and the seconds [floor(d) mod 60] in decimal, each padded
    to two digits.  The two roundings in [Math.floor(duration / 60)] never
    reach the next minute. *)
Theorem formatTime_is_clock_of_whole_seconds : forall d : number,
  in_display_range d = true ->
  _formatTime d = clock_of_seconds (floor_Z d).
Proof.
  intros d Hd. destruct d as [s|s| |s m e]; try discriminate.
  - destruct s; vm_compute; reflexivity.
  - destruct s; [discriminate|]. cbn [in_display_range floor_Z] in *.
    apply andb_prop in Hd as [Hd He0]. apply andb_prop in Hd as [Hd He1].
    apply andb_prop in Hd as [Hlo Hhi].
    apply Z.leb_le in Hlo, He0, He1. apply Z.ltb_lt in Hhi.
    apply formatTime_normal; lia.
Qed.

Lemma formatTime_is_clock_of_whole_seconds_witness :
  in_display_range (num_of_Z 3725) = true /\
  _formatTime (num_of_Z 3725) = "62:05"%string.
Proof.
  assert (H : in_display_range (num_of_Z 3725) = true)
    by (vm_compute; reflexivity).
  split; [exact H|].
  rewrite (formatTime_is_clock_of_whole_seconds _ H).
  vm_compute. reflexivity.
Defined.

(** X13.  The seconds field of every finite duration that is not negative,
    however large, is [floor(d) mod 60] in two digits: [duration % 60] is
    exact. *)
Theorem formatTime_seconds_field : forall (m : positive) (e : Z),
  _formatTime (S754_finite false m e)
  = (padStart (Number_toString
                 (Math_floor (num_div (S754_finite false m e) num_60))) 2 "0"
     ++ ":" ++ padStart (digits (integer_part m e mod 60)) 2 "0")%string.
Proof.
  intros m e. unfold _formatTime. rewrite seconds_value.
  pose proof (Z.mod_pos_bound (integer_part m e) 60 ltac:(lia)) as Hs.
  rewrite Number_toString_natural; [reflexivity|].
  rewrite pow2_53. lia.
Qed.

Lemma formatTime_millis (d : number) :
  in_display_range d = true ->
  _formatTime (num_div d num_1000) = clock_of_seconds (floor_Z d / 1000).
Proof.
  intros Hd. destruct d as [s|s| |s m e]; try discriminate.
  - destruct s; vm_compute; reflexivity.
  - destruct s; [discriminate|]. cbn [in_display_range floor_Z] in *.
    apply andb_prop in Hd as [Hd He0]. apply andb_prop in Hd as [Hd He1].
    apply andb_prop in Hd as [Hlo Hhi].
    apply Z.leb_le in Hlo, He0, He1. apply Z.ltb_lt in Hhi.
    destruct (num_div_1000 m e) as (m3 & e3 & -> & Hm3 & He3 & Hfl);
      [lia|lia|].
    rewrite formatTime_normal by lia. rewrite Hfl. reflexivity.
Qed.

(** X14.  The time text of a loaded player shows, for the position and
    the duration, the clock reading of the whole seconds in the whole
    milliseconds, [floor(ms) / 1000]: neither the division by 1000 nor the
    one by 60 rounds up to the next second or minute. *)
Theorem time_text_is_clock_of_whole_millis :
  forall (props : Props) (error : ErrorState) (p : LoadedPlayback),
  in_display_range (positionMillis p) = true ->
  in_display_range (durationMillis p) = true ->
  timeText (AudioPlayer props error (Loaded p))
  = (clock_of_seconds (floor_Z (positionMillis p) / 1000) ++ " / " ++
     clock_of_seconds (floor_Z (durationMillis p) / 1000))%string.
Proof.
  intros props error p Hpos Hdur. cbn [AudioPlayer timeText].
  rewrite !formatTime_millis by assumption. reflexivity.
Qed.

Lemma time_text_is_clock_of_whole_millis_witness :
  timeText (AudioPlayer source_a None
              (Loaded {| sound := 0%nat;
                         positionMillis := num_of_Z 61999;
                         durationMillis := num_of_Z 3725000;
                         isPlaying := true; isLooping := false;
                         isMuted := false; rate := num_1;
                         shouldCorrectPitch := false |}))
  = "01:01 / 62:05"%string.
Proof.
  rewrite time_text_is_clock_of_whole_millis;
    vm_compute; reflexivity.
Defined.
